(** * Command and agent dispatch core of specify_cli

    A shallow embedding of
      - [specify_cli/services/command_registry.py]  (module [Registry]),
      - [specify_cli/services/command_executor.py]  (modules [Parser], [Executor]),
      - [specify_cli/services/agent_registry.py]    (module [Agents]),
      - [specify_cli/services/command_discovery.py], naming and registration
        of discovered commands                       (module [Discovery]),
      - [specify_cli/services/opencode_integration.py], the path of
        [execute_opencode_command] through the executor (module [Integration]),
    together with the small part of the Python runtime these files rely on
    (module [Py]: values, truthiness, [isinstance], [str] methods, [int()],
    [float()], insertion-ordered dictionaries and exceptions; module [Shlex]:
    [shlex.split] in its default POSIX mode).

    Conventions.
      - Text is ASCII: a Python [str] is a Rocq [string].
      - A Python [dict] is an association list in insertion order with
        pairwise distinct keys ([Py.dict_set] keeps the position of a key that
        is already there, as Python does).
      - Objects that are shared and mutated (the [RegisteredCommand]
        instances) live in a store indexed by address; the registry's
        [commands] dictionary holds addresses, so several keys can name one
        object.
      - A computation that can raise returns [Py.Res]; [try ... except
        Exception] is [Py.try_except].  Only exceptions deriving from
        [Exception] are modelled. *)

From Stdlib Require Import ZArith String Ascii List Bool Lia.
From stdpp Require Import base option list strings.

Import ListNotations.
Local Open Scope Z_scope.

(* ===================================================================== *)
(** * The Python runtime fragment                                         *)
(* ===================================================================== *)

Module Py.

(** ** Exceptions and the result of a computation *)

(** An exception instance: its class name and [str(e)]. *)
Record Exn := mkExn { exn_class : string; exn_msg : string }.

Inductive Res (A : Type) : Type :=
| Ok (a : A)
| Raise (e : Exn).
Arguments Ok {A} a.
Arguments Raise {A} e.

Definition bind {A B} (m : Res A) (k : A -> Res B) : Res B :=
  match m with
  | Ok a => k a
  | Raise e => Raise e
  end.

(** [try: body  except Exception as e: handler e] *)
Definition try_except {A} (body : Res A) (handler : Exn -> Res A) : Res A :=
  match body with
  | Ok a => Ok a
  | Raise e => handler e
  end.

Definition ValueError (msg : string) : Exn := mkExn "ValueError" msg.
Definition RuntimeError (msg : string) : Exn := mkExn "RuntimeError" msg.

(** ** Values *)

(** A float is kept as the exact decimal it was read from, [mant * 10^expo],
    with no trailing zero in [mant]; rounding to binary64 is not modelled. *)
Record Dec := mkDec { mant : Z; expo : Z }.

#[warning="-register-all"]
Inductive Val :=
| VNone
| VBool (b : bool)
| VInt (n : Z)
| VFloat (d : Dec)
| VStr (s : string)
| VList (l : list Val)
| VDict (d : list (string * Val))
| VObj (cls : string) (oid : nat).   (* an instance of any other class *)

(** Truthiness, as tested by [if x:] and [not x]. *)
Definition truthy (v : Val) : bool :=
  match v with
  | VNone => false
  | VBool b => b
  | VInt n => negb (n =? 0)
  | VFloat d => negb (mant d =? 0)
  | VStr s => negb (String.eqb s "")
  | VList l => match l with [] => false | _ => true end
  | VDict d => match d with [] => false | _ => true end
  | VObj _ _ => true
  end.

(** The built-in classes the executor's [type_map] refers to. *)
Inductive PyType := TStr | TInt | TFloat | TBool | TList | TDict.

(** [isinstance(v, t)]; [bool] is a subclass of [int]. *)
Definition isinstance (v : Val) (t : PyType) : bool :=
  match t, v with
  | TStr, VStr _ => true
  | TInt, VInt _ => true
  | TInt, VBool _ => true
  | TFloat, VFloat _ => true
  | TBool, VBool _ => true
  | TList, VList _ => true
  | TDict, VDict _ => true
  | _, _ => false
  end.

(** ** Dictionaries *)

Section Dict.
Context {V : Type}.

Fixpoint dict_get (k : string) (d : list (string * V)) : option V :=
  match d with
  | [] => None
  | (k', v) :: d' => if String.eqb k k' then Some v else dict_get k d'
  end.

(** [k in d] *)
Definition dict_has (k : string) (d : list (string * V)) : bool :=
  match dict_get k d with Some _ => true | None => false end.

(** [d[k] = v] *)
Fixpoint dict_set (k : string) (v : V) (d : list (string * V)) : list (string * V) :=
  match d with
  | [] => [(k, v)]
  | (k', v') :: d' =>
      if String.eqb k k' then (k', v) :: d' else (k', v') :: dict_set k v d'
  end.

(** [del d[k]] for a key that may be absent (the callers test first). *)
Fixpoint dict_del (k : string) (d : list (string * V)) : list (string * V) :=
  match d with
  | [] => []
  | (k', v') :: d' =>
      if String.eqb k k' then d' else (k', v') :: dict_del k d'
  end.

Definition dict_keys (d : list (string * V)) : list string := map fst d.
Definition dict_values (d : list (string * V)) : list V := map snd d.
End Dict.

(** ** Strings *)

Definition is_digit (c : ascii) : bool :=
  let n := nat_of_ascii c in (48 <=? n)%nat && (n <=? 57)%nat.

Definition digit_val (c : ascii) : Z := Z.of_nat (nat_of_ascii c) - 48.

(** [c.isspace()] on ASCII: TAB LF VT FF CR, FS GS RS US, SPACE. *)
Definition is_space (c : ascii) : bool :=
  let n := nat_of_ascii c in
  ((9 <=? n)%nat && (n <=? 13)%nat) || ((28 <=? n)%nat && (n <=? 32)%nat).

Definition lower_char (c : ascii) : ascii :=
  let n := nat_of_ascii c in
  if (65 <=? n)%nat && (n <=? 90)%nat then ascii_of_nat (n + 32) else c.

(** [s.lower()] *)
Fixpoint lower (s : string) : string :=
  match s with
  | EmptyString => EmptyString
  | String c s' => String (lower_char c) (lower s')
  end.

Fixpoint lstrip (s : string) : string :=
  match s with
  | EmptyString => EmptyString
  | String c s' => if is_space c then lstrip s' else s
  end.

Fixpoint rstrip (s : string) : string :=
  match s with
  | EmptyString => EmptyString
  | String c s' =>
      match rstrip s' with
      | EmptyString => if is_space c then EmptyString else String c EmptyString
      | r => String c r
      end
  end.

(** [s.strip()] *)
Definition strip (s : string) : string := rstrip (lstrip s).

(** [s.startswith(p)] *)
Definition startswith (p s : string) : bool := String.prefix p s.

(** [s[n:]] *)
Fixpoint drop_chars (n : nat) (s : string) : string :=
  match n, s with
  | O, _ => s
  | S n', String _ s' => drop_chars n' s'
  | S _, EmptyString => EmptyString
  end.

(** [c in s] for a one-character [c] *)
Fixpoint has_char (c : ascii) (s : string) : bool :=
  match s with
  | EmptyString => false
  | String c' s' => Ascii.eqb c c' || has_char c s'
  end.

(** [s.split(c, 1)] for an [s] that contains [c]: the text before the first
    [c] and the text after it. *)
Fixpoint split_once (c : ascii) (s : string) : string * string :=
  match s with
  | EmptyString => (EmptyString, EmptyString)
  | String c' s' =>
      if Ascii.eqb c c' then (EmptyString, s')
      else let (a, b) := split_once c s' in (String c' a, b)
  end.

(** [sep.join(l)] *)
Fixpoint join (sep : string) (l : list string) : string :=
  match l with
  | [] => ""
  | [x] => x
  | x :: l' => x +:+ sep +:+ join sep l'
  end.

(** [sub in s]: [sub] occurs somewhere inside [s]. *)
Definition contains (sub s : string) : Prop :=
  exists pre post, s = pre +:+ sub +:+ post.

(** ** [int()] and [float()] on text *)

(** digitpart ::= digit (["_"] digit)*, read to the end of the text. *)
Fixpoint digits_from (after_underscore : bool) (s : string) : option (list Z) :=
  match s with
  | EmptyString => if after_underscore then None else Some []
  | String c s' =>
      if is_digit c then cons (digit_val c) <$> digits_from false s'
      else if Ascii.eqb c "_" && negb after_underscore then digits_from true s'
      else None
  end.

Definition digitpart (s : string) : option (list Z) :=
  match s with
  | String c _ => if is_digit c then digits_from false s else None
  | EmptyString => None
  end.

Definition digits_value (ds : list Z) : Z :=
  fold_left (fun acc d => 10 * acc + d) ds 0.

(** An optional sign: [(negative, rest)]. *)
Definition split_sign (s : string) : bool * string :=
  match s with
  | String "-" s' => (true, s')
  | String "+" s' => (false, s')
  | _ => (false, s)
  end.

Definition apply_sign (neg : bool) (n : Z) : Z := if neg then - n else n.

(** [int(s)], base 10: [None] stands for [ValueError].  Integers are
    unbounded; the interpreter's optional limit on the number of digits is
    not modelled. *)
Definition py_int (s : string) : option Z :=
  let (neg, body) := split_sign (strip s) in
  ds ← digitpart body;
  Some (apply_sign neg (digits_value ds)).

(** Drop the trailing zeros of a digit list, counting them. *)
Fixpoint strip_zeros (rev_ds : list Z) : list Z * Z :=
  match rev_ds with
  | 0 :: r => let (ds, k) := strip_zeros r in (ds, k + 1)
  | _ => (rev rev_ds, 0)
  end.

Definition mk_dec (neg : bool) (digits : list Z) (e : Z) : Dec :=
  let (ds, k) := strip_zeros (rev digits) in
  let m := digits_value ds in
  if m =? 0 then mkDec 0 0 else mkDec (apply_sign neg m) (e + k).

(** An empty text stands for an omitted optional digitpart. *)
Definition opt_digitpart (s : string) : option (list Z) :=
  match s with
  | EmptyString => Some []
  | _ => digitpart s
  end.

(** exponent ::= [sign] digitpart *)
Definition exponent (s : string) : option Z :=
  let (neg, body) := split_sign s in
  ds ← digitpart body;
  Some (apply_sign neg (digits_value ds)).

(** number ::= [digitpart] "." digitpart | digitpart ["."] *)
Definition number (s : string) : option (list Z * list Z) :=
  if has_char "." s then
    let (ip, fp) := split_once "." s in
    i ← opt_digitpart ip;
    f ← opt_digitpart fp;
    match i, f with
    | [], [] => None
    | _, _ => Some (i, f)
    end
  else
    i ← digitpart s; Some (i, []).

(** [float(s)] on the decimal-number grammar
      floatvalue ::= [sign] number [("e" | "E") [sign] digitpart];
    [None] stands for [ValueError].  The spellings [inf], [infinity] and [nan]
    are left out: they contain no ["."], and [_parse_value] calls [float] only
    on text that does. *)
Definition py_float (s : string) : option Dec :=
  let (neg, body) := split_sign (strip s) in
  let lo := lower body in
  let (m, e) :=
    if has_char "e" lo then
      let (m, e) := split_once "e" lo in (m, exponent e)
    else (lo, Some 0) in
  '(i, f) ← number m;
  x ← e;
  Some (mk_dec neg (i ++ f) (x - Z.of_nat (length f))).

(** [sub in s] for strings: [sub] starts at some position of [s]. *)
Fixpoint str_in (sub s : string) : bool :=
  String.prefix sub s ||
  match s with
  | EmptyString => false
  | String _ s' => str_in sub s'
  end.

(** [s.replace(a, b)] for one-character [a] and [b] *)
Fixpoint replace_char (a b : ascii) (s : string) : string :=
  match s with
  | EmptyString => EmptyString
  | String c s' => String (if Ascii.eqb c a then b else c) (replace_char a b s')
  end.

(** [all(p(c) for c in s)] *)
Fixpoint all_chars (p : ascii -> bool) (s : string) : bool :=
  match s with
  | EmptyString => true
  | String c s' => p c && all_chars p s'
  end.

End Py.

Import Py.

(* ===================================================================== *)
(** * [shlex.split(s)]                                                    *)
(* ===================================================================== *)

(** The tokenizer of the standard library in the configuration
    [shlex.split] uses: POSIX mode, [whitespace_split], no comment
    characters.  Whitespace is [" \t\r\n"], the quotes are ['] and ["], the
    escape is [\], and the escape is active inside ["] only. *)
Module Shlex.

Definition is_whitespace (c : ascii) : bool :=
  Ascii.eqb c " " || Ascii.eqb c "009" || Ascii.eqb c "013" || Ascii.eqb c "010".

Definition is_quote (c : ascii) : bool :=
  Ascii.eqb c "'" || Ascii.eqb c "034".

Definition is_escape (c : ascii) : bool := Ascii.eqb c "\".

(** The lexer's [state]: between tokens ([' ']), inside a word (['a']),
    inside a quotation (the quote character), or right after an escape
    (with [escapedstate]: the quote to return to, if any). *)
Inductive state :=
| Between
| InWord
| InQuote (q : ascii)
| Escaped (back : option ascii).

Definition push (tok : string) (c : ascii) : string := tok +:+ String c "".

(** One pass over the text; [tok] is the token being built and [acc] the
    tokens already emitted, last first. *)
Fixpoint lex (st : state) (tok : string) (acc : list string) (s : string)
  : Res (list string) :=
  match s with
  | EmptyString =>
      match st with
      | Between => Ok (rev acc)
      | InWord => Ok (rev (tok :: acc))
      | InQuote _ => Raise (ValueError "No closing quotation")
      | Escaped _ => Raise (ValueError "No escaped character")
      end
  | String c s' =>
      match st with
      | Between =>
          if is_whitespace c then lex Between "" acc s'
          else if is_escape c then lex (Escaped None) "" acc s'
          else if is_quote c then lex (InQuote c) "" acc s'
          else lex InWord (String c "") acc s'
      | InWord =>
          if is_whitespace c then lex Between "" (tok :: acc) s'
          else if is_quote c then lex (InQuote c) tok acc s'
          else if is_escape c then lex (Escaped None) tok acc s'
          else lex InWord (push tok c) acc s'
      | InQuote q =>
          if Ascii.eqb c q then lex InWord tok acc s'
          else if is_escape c && Ascii.eqb q "034" then lex (Escaped (Some q)) tok acc s'
          else lex (InQuote q) (push tok c) acc s'
      | Escaped None => lex InWord (push tok c) acc s'
      | Escaped (Some q) =>
          if negb (is_escape c) && negb (Ascii.eqb c q)
          then lex (InQuote q) (push (push tok "\") c) acc s'
          else lex (InQuote q) (push tok c) acc s'
      end
  end.

Definition split (s : string) : Res (list string) := lex Between "" [] s.

(** A character that neither [str.strip] nor the tokenizer treats
    specially, and a non-empty word made of such characters. *)
Definition plain_char (c : ascii) : bool :=
  negb (is_space c) && negb (is_quote c) && negb (is_escape c).

Definition plain_word (w : string) : bool :=
  negb (String.eqb w "") && all_chars plain_char w.

End Shlex.

(* ===================================================================== *)
(** * The parser of [command_executor.py]                                 *)
(* ===================================================================== *)

Module Parser.

(** [@dataclass ParsedCommand] *)
Record ParsedCommand := mkParsed {
  name : string;
  args : list Val;
  kwargs : list (string * Val);
  raw_input : string
}.

Definition is_bool_word (s : string) : bool :=
  String.eqb (lower s) "true" || String.eqb (lower s) "false".

Definition is_none_word (s : string) : bool :=
  String.eqb (lower s) "none" || String.eqb (lower s) "null".

(** [CommandExecutor._parse_value] *)
Definition _parse_value (value : string) : Val :=
  if is_bool_word value then VBool (String.eqb (lower value) "true")
  else
    (* try: float(value) if '.' in value else int(value); except ValueError: pass *)
    match (if has_char "." value then VFloat <$> py_float value
           else VInt <$> py_int value) with
    | Some v => v
    | None =>
        if is_none_word value then VNone
        else VStr value
    end.

(** The [while i < len(parts)] loop of [_parse_opencode_command], from
    index [i] on: [parts] is [parts[i:]]. *)
Fixpoint parse_tokens (parts : list string) (args : list Val)
    (kwargs : list (string * Val)) : list Val * list (string * Val) :=
  match parts with
  | [] => (args, kwargs)
  | part :: rest =>
      if startswith "--" part then
        let flag_part := drop_chars 2 part in
        if has_char "=" flag_part then
          let (key, value) := split_once "=" flag_part in
          parse_tokens rest args (dict_set key (_parse_value value) kwargs)
        else
          match rest with
          | next :: rest' =>
              parse_tokens rest' args (dict_set flag_part (_parse_value next) kwargs)
          | [] => (args, dict_set flag_part (VBool true) kwargs)
          end
      else if startswith "-" part then
        let flag_name := drop_chars 1 part in
        match rest with
        | next :: rest' =>
            if negb (startswith "-" next)
            then parse_tokens rest' args (dict_set flag_name (_parse_value next) kwargs)
            else parse_tokens rest args (dict_set flag_name (VBool true) kwargs)
        | [] => (args, dict_set flag_name (VBool true) kwargs)
        end
      else
        parse_tokens rest (args ++ [_parse_value part]) kwargs
  end.

(** [CommandExecutor._parse_opencode_command] *)
Definition _parse_opencode_command (command_string : string)
  : Res (option ParsedCommand) :=
  let cmd_part := drop_chars 1 command_string in
  bind (Shlex.split cmd_part) (fun parts =>
  match parts with
  | [] => Ok None
  | command_name :: rest =>
      let (a, kw) := parse_tokens rest [] [] in
      Ok (Some (mkParsed command_name a kw command_string))
  end).

(** [CommandExecutor._parse_simple_command] *)
Definition _parse_simple_command (command_string : string)
  : Res (option ParsedCommand) :=
  bind (Shlex.split command_string) (fun parts =>
  match parts with
  | [] => Ok None
  | command_name :: rest =>
      Ok (Some (mkParsed command_name (map _parse_value rest) [] command_string))
  end).

(** [CommandExecutor.parse_command_string] *)
Definition parse_command_string (command_string : string)
  : Res (option ParsedCommand) :=
  if String.eqb command_string "" || String.eqb (strip command_string) "" then Ok None
  else
    let command_string := strip command_string in
    if startswith "/" command_string
    then _parse_opencode_command command_string
    else _parse_simple_command command_string.

(** An argument as a caller writes it on a command line: a positional word
    or a long flag [--key=value]. *)
Inductive Written :=
| Positional (word : string)
| Flag (key value : string).

Definition render (w : Written) : string :=
  match w with
  | Positional word => word
  | Flag key value => "--" +:+ key +:+ "=" +:+ value
  end.

(** A positional word is plain and does not start with a dash; a flag has a
    plain, non-empty key without ["="] and a plain value. *)
Definition writable (w : Written) : bool :=
  match w with
  | Positional word => Shlex.plain_word word && negb (startswith "-" word)
  | Flag key value =>
      Shlex.plain_word key && negb (has_char "=" key) &&
      all_chars Shlex.plain_char value
  end.

(** The values a written argument list stands for. *)
Definition positionals (ws : list Written) : list Val :=
  omap (fun w => match w with
                 | Positional word => Some (_parse_value word)
                 | Flag _ _ => None
                 end) ws.

Definition keywords (ws : list Written) : list (string * Val) :=
  fold_left (fun kw w => match w with
                         | Positional _ => kw
                         | Flag key value => dict_set key (_parse_value value) kw
                         end) ws [].

(** The values the parser produces: no list, no dictionary, no object. *)
Definition scalar (v : Val) : bool :=
  match v with
  | VList _ | VDict _ | VObj _ _ => false
  | _ => true
  end.

End Parser.

(* ===================================================================== *)
(** * [command_registry.py]                                               *)
(* ===================================================================== *)

Module Registry.

(** ** Python's [==] on the values a registry entry holds *)

Definition dec_eq_int (d : Dec) (n : Z) : bool :=
  (0 <=? expo d) && (mant d * 10 ^ expo d =? n).

Definition bool_int (b : bool) : Z := if b then 1 else 0.

Fixpoint list_eqb {A} (eqb : A -> A -> bool) (l1 l2 : list A) : bool :=
  match l1, l2 with
  | [], [] => true
  | x :: l1', y :: l2' => eqb x y && list_eqb eqb l1' l2'
  | _, _ => false
  end.

Definition option_eqb {A} (eqb : A -> A -> bool) (o1 o2 : option A) : bool :=
  match o1, o2 with
  | None, None => true
  | Some x, Some y => eqb x y
  | _, _ => false
  end.

(** Two dictionaries are equal when they have the same keys with equal
    values, in whatever order. *)
Definition dict_eqb {V} (eqb : V -> V -> bool) (d1 d2 : list (string * V)) : bool :=
  (length d1 =? length d2)%nat &&
  forallb (fun kv => match dict_get (fst kv) d2 with
                     | Some w => eqb (snd kv) w
                     | None => false
                     end) d1.

(** [a == b]: numbers compare by value across [bool], [int] and [float];
    an instance of another class compares by identity. *)
Fixpoint val_eqb (a b : Val) {struct a} : bool :=
  match a, b with
  | VNone, VNone => true
  | VBool x, VBool y => Bool.eqb x y
  | VBool x, VInt n | VInt n, VBool x => bool_int x =? n
  | VBool x, VFloat d | VFloat d, VBool x => dec_eq_int d (bool_int x)
  | VInt n, VInt m => n =? m
  | VInt n, VFloat d | VFloat d, VInt n => dec_eq_int d n
  | VFloat d, VFloat d' => (mant d =? mant d') && (expo d =? expo d')
  | VStr s, VStr t => String.eqb s t
  | VList l1, VList l2 =>
      (fix go (l1 l2 : list Val) : bool :=
         match l1, l2 with
         | [], [] => true
         | x :: l1', y :: l2' => val_eqb x y && go l1' l2'
         | _, _ => false
         end) l1 l2
  | VDict d1, VDict d2 =>
      (length d1 =? length d2)%nat &&
      (fix all (d1 : list (string * Val)) : bool :=
         match d1 with
         | [] => true
         | (k, v) :: d1' =>
             match dict_get k d2 with
             | Some w => val_eqb v w
             | None => false
             end && all d1'
         end) d1
  | VObj c i, VObj c' i' => String.eqb c c' && (i =? i')%nat
  | _, _ => false
  end.

(** ** The data model *)

(** A handler is a callable object: its identity, its [__module__] attribute
    if it has one, and what calling it with [*args, **kwargs] does. *)
Record Handler := mkHandler {
  h_id : nat;
  h_module : option string;
  h_call : list Val -> list (string * Val) -> Res Val
}.

(** An entry of a [parameters] schema: the keys [type], [required] (its
    truthiness) and [default] of the entry's dictionary. *)
Record ParamInfo := mkParam {
  p_type : option string;
  p_required : bool;
  p_default : option Val
}.

Definition param_eqb (p q : ParamInfo) : bool :=
  option_eqb String.eqb (p_type p) (p_type q) &&
  Bool.eqb (p_required p) (p_required q) &&
  option_eqb val_eqb (p_default p) (p_default q).

(** [@dataclass CommandMetadata], after [__post_init__]. *)
Record CommandMetadata := mkMeta {
  name : string;
  description : string;
  category : string;
  aliases : list string;
  parameters : list (string * ParamInfo);
  examples : list string;
  version : string;
  author : string;
  tags : list string;
  requires_project : bool;
  hidden : bool;
  created_at : Z;
  updated_at : Z
}.

(** [@dataclass RegisteredCommand] *)
Record RegisteredCommand := mkCommand {
  metadata : CommandMetadata;
  handler : Handler;
  module_path : string;
  enabled : bool
}.

Definition set_enabled (b : bool) (c : RegisteredCommand) : RegisteredCommand :=
  mkCommand (metadata c) (handler c) (module_path c) b.

(** The [__eq__] that [@dataclass] generates: field by field. *)
Definition metadata_eqb (m1 m2 : CommandMetadata) : bool :=
  String.eqb (name m1) (name m2) &&
  String.eqb (description m1) (description m2) &&
  String.eqb (category m1) (category m2) &&
  list_eqb String.eqb (aliases m1) (aliases m2) &&
  dict_eqb param_eqb (parameters m1) (parameters m2) &&
  list_eqb String.eqb (examples m1) (examples m2) &&
  String.eqb (version m1) (version m2) &&
  String.eqb (author m1) (author m2) &&
  list_eqb String.eqb (tags m1) (tags m2) &&
  Bool.eqb (requires_project m1) (requires_project m2) &&
  Bool.eqb (hidden m1) (hidden m2) &&
  (created_at m1 =? created_at m2) &&
  (updated_at m1 =? updated_at m2).

Definition command_eqb (c1 c2 : RegisteredCommand) : bool :=
  metadata_eqb (metadata c1) (metadata c2) &&
  (h_id (handler c1) =? h_id (handler c2))%nat &&
  String.eqb (module_path c1) (module_path c2) &&
  Bool.eqb (enabled c1) (enabled c2).

(** A reference to a [RegisteredCommand] object. *)
Definition Ref := nat.

(** [CommandRegistry]: the objects allocated so far, [self.commands] (key to
    object) and [self.categories] (category to primary names). *)
Record CommandRegistry := mkRegistry {
  store : list RegisteredCommand;
  commands : list (string * Ref);
  categories : list (string * list string)
}.

(** [CommandRegistry.__init__] *)
Definition empty : CommandRegistry := mkRegistry [] [] [].

(** The states the model is meant for: [self.commands] is a dictionary (no
    key twice) and each of its keys names an allocated object. *)
Definition wf (self : CommandRegistry) : Prop :=
  List.NoDup (dict_keys (commands self)) /\
  forall k r, dict_get k (commands self) = Some r -> (r < length (store self))%nat.

(** ** Operations *)

(** The alias loop of [register_command]. *)
Definition register_aliases (r : Ref) (als : list string)
    (cmds : list (string * Ref)) : list (string * Ref) :=
  fold_left (fun cmds alias =>
               if dict_has alias cmds then cmds else dict_set alias r cmds)
            als cmds.

(** [CommandRegistry.register_command]; [now] holds the two clock readings
    of [CommandMetadata.__post_init__].  An optional list or dictionary
    argument is given as the value [x or []] / [x or {}] makes of it, so
    [None] is the empty one. *)
Definition register_command (self : CommandRegistry)
    (name : string) (handler : Handler) (description : string)
    (category : string) (aliases : list string)
    (parameters : list (string * ParamInfo)) (examples tags : list string)
    (requires_project hidden : bool) (version : string) (now : Z * Z)
  : CommandRegistry :=
  let metadata :=
    mkMeta name description category aliases parameters examples version
           "spec-kit" tags requires_project hidden (fst now) (snd now) in
  let module_path := default "unknown" (h_module handler) in
  let registered_command := mkCommand metadata handler module_path true in
  let r := length (store self) in
  let store' := store self ++ [registered_command] in
  (* self.commands[name] = registered_command *)
  let cmds := dict_set name r (commands self) in
  (* add to category *)
  let cats := if dict_has category (categories self) then categories self
              else dict_set category [] (categories self) in
  let names := default [] (dict_get category cats) in
  let cats := if existsb (String.eqb name) names then cats
              else dict_set category (names ++ [name]) cats in
  (* register aliases *)
  let cmds := match aliases with
              | [] => cmds
              | _ => register_aliases r aliases cmds
              end in
  mkRegistry store' cmds cats.

(** [l.remove(x)]: drops the first occurrence. *)
Fixpoint list_remove (x : string) (l : list string) : list string :=
  match l with
  | [] => []
  | y :: l' => if String.eqb x y then l' else y :: list_remove x l'
  end.

(** The removal loop of [unregister_command]. *)
Definition remove_keys (ks : list string) (cmds : list (string * Ref))
  : list (string * Ref) :=
  fold_left (fun cmds alias =>
               if dict_has alias cmds then dict_del alias cmds else cmds)
            ks cmds.

(** [CommandRegistry.unregister_command].  A key bound to no object does not
    occur in a [wf] registry; it is treated as unknown. *)
Definition unregister_command (self : CommandRegistry) (name : string)
  : bool * CommandRegistry :=
  match dict_get name (commands self) with
  | None => (false, self)
  | Some r =>
      match store self !! r with
      | None => (false, self)
      | Some command =>
          let cat := Registry.category (metadata command) in
          let cats :=
            match dict_get cat (categories self) with
            | Some names =>
                if existsb (String.eqb name) names
                then dict_set cat (list_remove name names) (categories self)
                else categories self
            | None => categories self
            end in
          let aliases_to_remove :=
            match Registry.aliases (metadata command) with
            | [] => [name]
            | als => [name] ++ als
            end in
          let cmds := remove_keys aliases_to_remove (commands self) in
          (true, mkRegistry (store self) cmds cats)
      end
  end.

(** [CommandRegistry.get_command]: the object under [name], as its reference
    and its present contents. *)
Definition get_command (self : CommandRegistry) (name : string)
  : option (Ref * RegisteredCommand) :=
  r ← dict_get name (commands self);
  c ← store self !! r;
  Some (r, c).

(** [self.commands.items()], each object with its present contents. *)
Definition items (self : CommandRegistry) : list (string * RegisteredCommand) :=
  omap (fun kr => c ← store self !! snd kr; Some (fst kr, c)) (commands self).

(** [CommandRegistry.list_commands] *)
Definition list_commands (self : CommandRegistry) (category : option string)
    (include_hidden include_disabled : bool) : list RegisteredCommand :=
  omap (fun kc : string * RegisteredCommand =>
          let (name, command) := kc in
          if negb (String.eqb (Registry.name (metadata command)) name) then None
          else if match category with
                  | Some cat => negb (String.eqb cat "") &&
                                negb (String.eqb (Registry.category (metadata command)) cat)
                  | None => false
                  end then None
          else if hidden (metadata command) && negb include_hidden then None
          else if negb (enabled command) && negb include_disabled then None
          else Some command)
       (items self).

(** [CommandRegistry.execute_command] *)
Definition execute_command (self : CommandRegistry) (name : string)
    (args : list Val) (kwargs : list (string * Val))
    (context : option (list (string * Val))) : Res Val :=
  match get_command self name with
  | None => Raise (ValueError ("Command '" +:+ name +:+ "' not found"))
  | Some (_, command) =>
      if negb (enabled command)
      then Raise (ValueError ("Command '" +:+ name +:+ "' is disabled"))
      else
        let context := default [] context in
        if requires_project (metadata command) &&
           negb (truthy (default VNone (dict_get "project_path" context)))
        then Raise (ValueError ("Command '" +:+ name +:+ "' requires a project context"))
        else
          try_except (h_call (handler command) args kwargs)
            (fun e => Raise (RuntimeError
               ("Command '" +:+ name +:+ "' execution failed: " +:+ exn_msg e)))
  end.

(** [CommandRegistry.enable_command] / [disable_command] *)
Definition toggle (b : bool) (self : CommandRegistry) (name : string)
  : bool * CommandRegistry :=
  match get_command self name with
  | Some (r, command) =>
      (true, mkRegistry (<[r := set_enabled b command]> (store self))
                        (commands self) (categories self))
  | None => (false, self)
  end.

Definition enable_command := toggle true.
Definition disable_command := toggle false.

(** A run of [enable_command] ([true]) and [disable_command] ([false])
    calls, each with the name it is given. *)
Definition toggles (ops : list (bool * string)) (self : CommandRegistry)
  : CommandRegistry :=
  fold_left (fun st op => snd (toggle (fst op) st (snd op))) ops self.

(** [l.index(c)]: the first position holding a value equal to [c]. *)
Fixpoint list_index (c : RegisteredCommand) (l : list RegisteredCommand) : option nat :=
  match l with
  | [] => None
  | x :: l' => if command_eqb x c then Some O else S <$> list_index c l'
  end.

(** The test of the two comprehensions of [get_stats]:
    [c.metadata.name == list(self.commands.keys())[list(self.commands.values()).index(c)]]. *)
Definition name_is_first_key (self : CommandRegistry) (c : RegisteredCommand) : bool :=
  match list_index c (dict_values (items self)) with
  | Some i =>
      match dict_keys (items self) !! i with
      | Some k => String.eqb (Registry.name (metadata c)) k
      | None => false
      end
  | None => false
  end.

Record Stats := mkStats {
  total_commands : Z;
  enabled_commands : Z;
  disabled_commands : Z;
  n_categories : Z;
  commands_per_category : list (string * Z)
}.

(** [CommandRegistry.get_stats] *)
Definition get_stats (self : CommandRegistry) : Stats :=
  let values := dict_values (items self) in
  let total_commands :=
    Z.of_nat (length (filter (fun c => name_is_first_key self c = true) values)) in
  let enabled_commands :=
    Z.of_nat (length (filter (fun c => (enabled c && name_is_first_key self c) = true) values)) in
  mkStats total_commands enabled_commands (total_commands - enabled_commands)
          (Z.of_nat (length (categories self)))
          (map (fun cc => (fst cc, Z.of_nat (length (snd cc)))) (categories self)).

(** [CommandRegistry.list_categories] *)
Definition list_categories (self : CommandRegistry) : list string :=
  dict_keys (categories self).

(** The three tests of the loop of [search_commands], in its order: the
    name, the description, then the tags. *)
Definition matches_query (query_lower : string) (command : RegisteredCommand) : bool :=
  if str_in query_lower (lower (Registry.name (metadata command))) then true
  else if str_in query_lower (lower (description (metadata command))) then true
  else existsb (fun tag => str_in query_lower (lower tag)) (tags (metadata command)).

(** [CommandRegistry.search_commands] *)
Definition search_commands (self : CommandRegistry) (query : string)
    (category : option string) (include_hidden : bool) : list RegisteredCommand :=
  let query_lower := lower query in
  (* category=category if category else None *)
  let category := match category with
                  | Some cat => if String.eqb cat "" then None else Some cat
                  | None => None
                  end in
  List.filter (matches_query query_lower)
              (list_commands self category include_hidden false).

(** [CommandRegistry.is_command_enabled] *)
Definition is_command_enabled (self : CommandRegistry) (name : string) : bool :=
  match get_command self name with
  | Some (_, command) => enabled command
  | None => false
  end.

(** [CommandRegistry.clear]; the objects stay where they are, no key names
    them any more. *)
Definition clear (self : CommandRegistry) : CommandRegistry :=
  mkRegistry (store self) [] [].

(** A call of one of the methods that change the registry. *)
Inductive Call :=
| Register (name : string) (handler : Handler) (description category : string)
           (aliases : list string) (parameters : list (string * ParamInfo))
           (examples tags : list string) (requires_project hidden : bool)
           (version : string) (now : Z * Z)
| Unregister (name : string)
| Enable (name : string)
| Disable (name : string)
| Clear.

Definition call (self : CommandRegistry) (c : Call) : CommandRegistry :=
  match c with
  | Register name handler description category aliases parameters examples
             tags requires_project hidden version now =>
      register_command self name handler description category aliases
                       parameters examples tags requires_project hidden version now
  | Unregister name => snd (unregister_command self name)
  | Enable name => snd (enable_command self name)
  | Disable name => snd (disable_command self name)
  | Clear => clear self
  end.

(** The registry after a sequence of calls on a new [CommandRegistry()]. *)
Definition after_calls (cs : list Call) : CommandRegistry := fold_left call cs empty.

(** Each category lists a name at most once and no category occurs twice. *)
Definition categories_wf (self : CommandRegistry) : Prop :=
  List.NoDup (dict_keys (categories self)) /\
  forall cat names, dict_get cat (categories self) = Some names -> List.NoDup names.

End Registry.

(* ===================================================================== *)
(** * The executor of [command_executor.py]                               *)
(* ===================================================================== *)

Module Executor.

Import Parser Registry.

(** An execution context: [Optional[Dict[str, Any]]]. *)
Definition Context := option (list (string * Val)).

(** [@dataclass CommandResult] *)
Record CommandResult := mkResult {
  success : bool;
  output : Val;
  error : option string;
  command_name : string;
  execution_time : Z;
  context : Context
}.

(** [CommandResult(success=..., output=..., error=..., command_name=...)]
    with the remaining fields at their defaults. *)
Definition result (success : bool) (output : Val) (error : option string)
    (command_name : string) : CommandResult :=
  mkResult success output error command_name 0 None.

(** The dictionary [validate_command_arguments] returns:
    [{'valid': ..., 'error': ...}]. *)
Record Validation := mkValidation {
  valid : bool;
  verror : option string
}.

(** [type_map.get(expected_type)] *)
Definition type_map (expected_type : string) : option PyType :=
  if String.eqb expected_type "str" then Some TStr
  else if String.eqb expected_type "int" then Some TInt
  else if String.eqb expected_type "float" then Some TFloat
  else if String.eqb expected_type "bool" then Some TBool
  else if String.eqb expected_type "list" then Some TList
  else if String.eqb expected_type "dict" then Some TDict
  else None.

(** [CommandExecutor._validate_type] *)
Definition _validate_type (value : Val) (expected_type : string) : bool :=
  if String.eqb expected_type "any" then true
  else
    match type_map expected_type with
    | Some expected_python_type => isinstance value expected_python_type
    | None => true   (* unknown type, assume valid *)
    end.

(** The first loop of [validate_command_arguments]: required parameters. *)
Definition required_errors (parsed : ParsedCommand)
    (parameters : list (string * ParamInfo)) : list string :=
  omap (fun pp : string * ParamInfo =>
          let (param_name, param_info) := pp in
          if p_required param_info &&
             (negb (dict_has param_name (kwargs parsed)) &&
              (length (args parsed) =? 0)%nat)
          then Some ("Required parameter '" +:+ param_name +:+ "' is missing")
          else None)
       parameters.

(** The second loop: the types of the supplied keywords. *)
Definition type_errors (parsed : ParsedCommand)
    (parameters : list (string * ParamInfo)) : list string :=
  omap (fun kv : string * Val =>
          let (param_name, value) := kv in
          match dict_get param_name parameters with
          | Some param_info =>
              let expected_type := default "any" (p_type param_info) in
              if negb (_validate_type value expected_type)
              then Some ("Parameter '" +:+ param_name +:+ "' should be of type "
                         +:+ expected_type)
              else None
          | None => None
          end)
       (kwargs parsed).

(** [CommandExecutor.validate_command_arguments] *)
Definition validate_command_arguments (parsed : ParsedCommand)
    (command : RegisteredCommand) : Validation :=
  match parameters (metadata command) with
  | [] => mkValidation true None
  | params =>
      let errors := required_errors parsed params ++ type_errors parsed params in
      match errors with
      | [] => mkValidation true None
      | _ => mkValidation false (Some (join "; " errors))
      end
  end.

(** [not context or not context.get('project_path')] *)
Definition lacks_project (context : Context) : bool :=
  match context with
  | None | Some [] => true
  | Some d => negb (truthy (default VNone (dict_get "project_path" d)))
  end.

(** [CommandExecutor.execute_parsed_command] *)
Definition execute_parsed_command (registry : CommandRegistry)
    (parsed : ParsedCommand) (context : Context) : Res CommandResult :=
  let name := Parser.name parsed in
  try_except
    (match get_command registry name with
     | None =>
         Ok (result false VNone (Some ("Command '" +:+ name +:+ "' not found")) name)
     | Some (_, command) =>
         if negb (enabled command) then
           Ok (result false VNone (Some ("Command '" +:+ name +:+ "' is disabled")) name)
         else if requires_project (metadata command) && lacks_project context then
           Ok (result false VNone
                 (Some ("Command '" +:+ name +:+ "' requires a project context")) name)
         else
           let validation_result := validate_command_arguments parsed command in
           if negb (valid validation_result) then
             Ok (result false VNone (verror validation_result) name)
           else
             bind (execute_command registry name (args parsed) (kwargs parsed) context)
                  (fun r => Ok (result true r None name))
     end)
    (fun e => Ok (result false VNone
                    (Some ("Command execution failed: " +:+ exn_msg e)) name)).

(** [CommandExecutor.execute_string]; [clock] holds the readings of
    [time.time()] on entry and when the result is built. *)
Definition execute_string (registry : CommandRegistry)
    (command_string : string) (context : Context) (clock : Z * Z)
  : Res CommandResult :=
  let start_time := fst clock in
  let elapsed := snd clock - start_time in
  try_except
    (bind (parse_command_string command_string) (fun parsed =>
     match parsed with
     | None =>
         Ok (mkResult false VNone (Some "Failed to parse command") "" elapsed None)
     | Some parsed =>
         bind (execute_parsed_command registry parsed context) (fun r =>
         Ok (mkResult (success r) (output r) (error r) (command_name r)
                      elapsed context))
     end))
    (fun e => Ok (mkResult false VNone (Some (exn_msg e)) "" elapsed context)).

(** [CommandExecutor.get_command_suggestions] *)
Definition get_command_suggestions (registry : CommandRegistry)
    (partial_command : string) : list string :=
  if String.eqb partial_command "" then []
  else
    let commands := list_commands registry None false false in
    let command_names := map (fun cmd => Registry.name (metadata cmd)) commands in
    List.filter (startswith partial_command) command_names.

(** [CommandExecutor.get_command_completion] *)
Definition get_command_completion (registry : CommandRegistry)
    (command_name current_arg : string) : list string :=
  match get_command registry command_name with
  | None => []
  | Some (_, command) =>
      map (fun param_name => "--" +:+ param_name)
          (List.filter (startswith current_arg)
                       (dict_keys (parameters (metadata command))))
  end.

End Executor.

(* ===================================================================== *)
(** * [agent_registry.py]                                                 *)
(* ===================================================================== *)

Module Agents.

(** An agent instance, as far as [execute_agent] uses it: its [execute]
    method.  An instance is an ordinary object, hence truthy: [not agent]
    holds only when the lookup found nothing. *)
Record Agent := mkAgent {
  execute : Val -> Res Val
}.

(** [AgentRegistry], reduced to [self._agents]. *)
Record AgentRegistry := mkAgents {
  _agents : list (string * Agent)
}.




(** An agent class, as far as the registry uses it: what calling it with no
    argument gives, an instance or an exception. *)
Record AgentClass := mkAgentClass {
  instantiate : Res Agent
}.

(** The dictionary [_extract_agent_metadata] builds, key by key. *)
Record AgentMetadata := mkAgentMetadata {
  name : string;
  description : string;
  capabilities : list string;
  version : string;
  author : string;
  class_name : string;
  module : string
}.

(** [AgentRegistry] with its three dictionaries. *)
Record Catalog := mkCatalog {
  instances : AgentRegistry;
  _agent_classes : list (string * AgentClass);
  _agent_metadata : list (string * AgentMetadata)
}.





(** [AgentRegistry.get_capabilities_summary] *)
Definition get_capabilities_summary (self : Catalog) : list (string * list string) :=
  map (fun km : string * AgentMetadata => (fst km, capabilities (snd km)))
      (_agent_metadata self).


End Agents.

(* ===================================================================== *)
(** * [command_discovery.py]: naming and registration                     *)
(* ===================================================================== *)

Module Discovery.

Import Registry.

(** [@dataclass DiscoveredCommand] *)
Record DiscoveredCommand := mkDiscovered {
  name : string;
  handler : Handler;
  module_name : string;
  metadata : option CommandMetadata
}.

(** [CommandDiscovery._extract_command_name]; [_command_name] is the
    attribute of that name on the function, if it has one. *)
Definition _extract_command_name (func_name : string)
    (_command_name : option string) : string :=
  match _command_name with
  | Some explicit => explicit
  | None =>
      let name :=
        if startswith "cmd_" func_name then drop_chars 4 func_name
        else if startswith "command_" func_name then drop_chars 8 func_name
        else func_name in
      replace_char "_" "-" name
  end.

(** The body of the loop of [register_discovered_commands]; [now] holds the
    clock readings of this registration. *)
Definition register_discovered (registry : CommandRegistry)
    (command : DiscoveredCommand) (now : Z * Z) : CommandRegistry :=
  match metadata command with
  | Some m =>
      register_command registry (name command) (handler command)
        (Registry.description m) (Registry.category m) (Registry.aliases m)
        (Registry.parameters m) (Registry.examples m) (Registry.tags m)
        (Registry.requires_project m) (Registry.hidden m) "1.0.0" now
  | None =>
      register_command registry (name command) (handler command)
        ("Execute " +:+ name command +:+ " command") "general"
        [] [] [] [] false false "1.0.0" now
  end.

(** [CommandDiscovery.register_discovered_commands] on the values of
    [self.discovered_commands], each with the clock readings of its
    registration: the registry afterwards and [registered_count]. *)
Definition register_discovered_commands (registry : CommandRegistry)
    (discovered : list (DiscoveredCommand * (Z * Z))) : CommandRegistry * Z :=
  fold_left (fun (acc : CommandRegistry * Z) (cn : DiscoveredCommand * (Z * Z)) =>
               let (registry, registered_count) := acc in
               (register_discovered registry (fst cn) (snd cn), registered_count + 1))
            discovered (registry, 0).

End Discovery.

(* ===================================================================== *)
(** * [opencode_integration.py]: the way to a registered command          *)
(* ===================================================================== *)

Module Integration.

Import Registry Executor.




End Integration.

(* ===================================================================== *)
(** * Sample registries and invocations                                   *)
(* ===================================================================== *)

Module Samples.

Import Parser Registry Executor.

(** A handler that returns [None] and one that raises [KeyError("boom")]. *)
Definition h_ok : Handler :=
  mkHandler 0 (Some "handlers") (fun _ _ => Ok VNone).
Definition h_boom : Handler :=
  mkHandler 1 (Some "handlers") (fun _ _ => Raise (mkExn "KeyError" "boom")).

(** [register_command(name, handler, "", aliases=aliases)] at clock [t]. *)
Definition register (self : CommandRegistry) (name : string) (h : Handler)
    (aliases : list string) (t : Z) : CommandRegistry :=
  register_command self name h "" "general" aliases [] [] [] false false "1.0.0" (t, t).

(** One command, [spec], with the alias [s]. *)
Definition reg_spec : CommandRegistry := register empty "spec" h_ok ["s"] 0.


(** [n] registered with aliases [a] and [c], then again with [b] and [c]. *)
Definition reg_n_once : CommandRegistry := register empty "n" h_ok ["a"; "c"] 0.
Definition reg_n_twice : CommandRegistry := register reg_n_once "n" h_boom ["b"; "c"] 1.

(** [a] registered on its own, then [n] with the alias [a]. *)
Definition reg_a : CommandRegistry := register empty "a" h_ok [] 0.
Definition reg_a_n : CommandRegistry := register reg_a "n" h_boom ["a"] 1.

(** The entry the second call builds. *)
Definition h_boom_entry : RegisteredCommand :=
  mkCommand (mkMeta "n" "" "general" ["a"] [] [] "1.0.0" "spec-kit" [] false false 1 1)
            h_boom "handlers" true.

(** [n] registered with its own name among its aliases. *)
Definition reg_self_alias : CommandRegistry := register empty "n" h_ok ["n"; "a"] 0.

(** [echo] with the schema [msg: string, required] and [n: int, required]. *)
Definition echo_params : list (string * ParamInfo) :=
  [("msg", mkParam (Some "string") true None);
   ("n", mkParam (Some "int") true None)].
Definition echo_meta : CommandMetadata :=
  mkMeta "echo" "" "general" [] echo_params [] "1.0.0" "spec-kit" [] false false 0 0.
Definition echo : RegisteredCommand := mkCommand echo_meta h_ok "handlers" true.

End Samples.

(* ===================================================================== *)
(** * Properties                                                          *)
(* ===================================================================== *)

Import Parser Registry Executor.

(** ** Dictionaries *)

Section DictFacts.
Context {V : Type}.
Implicit Types (d : list (string * V)) (k : string) (v : V).

Lemma dict_get_set_eq k v d : dict_get k (dict_set k v d) = Some v.
Proof.
  induction d as [|[k' v'] d IH]; simpl.
  - by rewrite String.eqb_refl.
  - destruct (String.eqb k k') eqn:E; simpl; rewrite E; auto.
Qed.

Lemma dict_get_set_ne k k' v d :
  k <> k' -> dict_get k' (dict_set k v d) = dict_get k' d.
Proof.
  intros Hne. induction d as [|[k0 v0] d IH]; simpl.
  - apply String.eqb_neq in Hne. rewrite String.eqb_sym in Hne. by rewrite Hne.
  - destruct (String.eqb k k0) eqn:E; simpl.
    + apply String.eqb_eq in E. subst k0.
      assert (String.eqb k' k = false) as ->; [|done].
      apply String.eqb_neq. congruence.
    + by rewrite IH.
Qed.

Lemma dict_has_true k d : dict_has k d = true <-> is_Some (dict_get k d).
Proof.
  unfold dict_has. destruct (dict_get k d); split; intros H; try done.
Qed.

Lemma dict_has_false k d : dict_has k d = false <-> dict_get k d = None.
Proof. unfold dict_has. destruct (dict_get k d); split; intros H; done. Qed.

Lemma dict_get_None k d : dict_get k d = None <-> ~ In k (dict_keys d).
Proof.
  induction d as [|[k' v'] d IH]; simpl; [tauto|].
  destruct (String.eqb k k') eqn:E.
  - apply String.eqb_eq in E. subst. split; [done | tauto].
  - apply String.eqb_neq in E. rewrite IH. split; [|tauto].
    intros H [?|?]; [congruence | tauto].
Qed.

Lemma dict_get_del_ne k k' d :
  k <> k' -> dict_get k' (dict_del k d) = dict_get k' d.
Proof.
  intros Hne. induction d as [|[k0 v0] d IH]; simpl; [done|].
  destruct (String.eqb k k0) eqn:E; simpl.
  - apply String.eqb_eq in E. subst k0.
    assert (String.eqb k' k = false) as ->; [|done].
    apply String.eqb_neq. congruence.
  - by rewrite IH.
Qed.

Lemma dict_keys_del_incl k d x :
  In x (dict_keys (dict_del k d)) -> In x (dict_keys d).
Proof.
  induction d as [|[k0 v0] d IH]; simpl; [done|].
  destruct (String.eqb k k0); simpl; tauto.
Qed.

Lemma dict_keys_del_NoDup k d :
  List.NoDup (dict_keys d) -> List.NoDup (dict_keys (dict_del k d)).
Proof.
  induction d as [|[k0 v0] d IH]; simpl; [done|].
  intros H. inversion H as [|? ? Hin Hnd]; subst.
  destruct (String.eqb k k0); simpl; [done|].
  constructor; [|auto]. intros Hx. apply Hin. eapply dict_keys_del_incl, Hx.
Qed.

Lemma dict_get_del_eq k d :
  List.NoDup (dict_keys d) -> dict_get k (dict_del k d) = None.
Proof.
  induction d as [|[k0 v0] d IH]; simpl; [done|].
  intros H. inversion H as [|? ? Hin Hnd]; subst.
  destruct (String.eqb k k0) eqn:E; simpl.
  - apply String.eqb_eq in E. subst k0. by apply dict_get_None.
  - rewrite E. auto.
Qed.

Lemma dict_keys_set k v d :
  dict_keys (dict_set k v d) =
  if dict_has k d then dict_keys d else dict_keys d ++ [k].
Proof.
  unfold dict_has. induction d as [|[k0 v0] d IH]; simpl; [done|].
  destruct (String.eqb k k0) eqn:E; simpl; [done|].
  rewrite IH. by destruct (dict_get k d).
Qed.

Lemma dict_keys_set_NoDup k v d :
  List.NoDup (dict_keys d) -> List.NoDup (dict_keys (dict_set k v d)).
Proof.
  intros H. rewrite dict_keys_set. destruct (dict_has k d) eqn:E; [done|].
  apply dict_has_false, dict_get_None in E.
  apply NoDup_ListNoDup, NoDup_app. apply NoDup_ListNoDup in H.
  split; [done|]. split; [|apply NoDup_singleton].
  intros x Hx Hk. apply list_elem_of_In in Hx.
  apply list_elem_of_singleton in Hk. by subst.
Qed.

Lemma dict_set_values_in k v d x :
  In x (dict_values (dict_set k v d)) -> x = v \/ In x (dict_values d).
Proof.
  induction d as [|[k0 v0] d IH]; simpl; [intuition|].
  destruct (String.eqb k k0); simpl; intuition.
Qed.

Lemma dict_del_values_in k d x :
  In x (dict_values (dict_del k d)) -> In x (dict_values d).
Proof.
  induction d as [|[k0 v0] d IH]; simpl; [tauto|].
  destruct (String.eqb k k0); simpl; tauto.
Qed.
End DictFacts.

(** ** Text *)

Lemma append_cons (x : ascii) (a b : string) :
  String x a +:+ b = String x (a +:+ b).
Proof. reflexivity. Qed.

Lemma append_assoc (a b c : string) : (a +:+ b) +:+ c = a +:+ b +:+ c.
Proof.
  induction a as [|x a IH]; [done|]. by rewrite !append_cons, IH.
Qed.

Lemma append_empty_r (a : string) : a +:+ "" = a.
Proof.
  induction a as [|x a IH]; [done|]. by rewrite append_cons, IH.
Qed.

Lemma contains_refl (s : string) : contains s s.
Proof.
  exists "", "". rewrite append_empty_r. reflexivity.
Qed.

Lemma contains_prepend (p sub s : string) : contains sub s -> contains sub (p +:+ s).
Proof.
  intros (pre & post & ->). exists (p +:+ pre), post. by rewrite append_assoc.
Qed.

Lemma contains_append (p sub s : string) : contains sub s -> contains sub (s +:+ p).
Proof.
  intros (pre & post & ->). exists pre, (post +:+ p).
  by rewrite !append_assoc.
Qed.

(** Every element of a joined list occurs in the result. *)
Lemma contains_join (sep x : string) (l : list string) :
  In x l -> contains x (join sep l).
Proof.
  induction l as [|y l IH]; [done|].
  intros [->|Hin].
  - destruct l; simpl; [apply contains_refl|].
    apply contains_append, contains_refl.
  - destruct l as [|z l]; [done|].
    change (join sep (y :: z :: l)) with (y +:+ sep +:+ join sep (z :: l)).
    by apply contains_prepend, contains_prepend, IH.
Qed.


Lemma has_char_dot_lower (s : string) : has_char "." (lower s) = has_char "." s.
Proof.
  induction s as [|c s IH]; simpl; [done|]. rewrite IH. f_equal.
  destruct c as [[] [] [] [] [] [] [] []]; reflexivity.
Qed.




(** ** The parser *)



(** C6: a long flag without ["="] takes the next token as its value
    whatever that token looks like: [/x --a --b=1] parses to the single
    keyword [a] with the string value ["--b=1"], and no keyword [b].  The
    short-flag branch does look at the next token: [/x -a -b] gives [a=True]
    and [b=True]. *)
Theorem long_flag_swallows_next_flag :
  parse_command_string "/x --a --b=1" =
    Ok (Some (mkParsed "x" [] [("a", VStr "--b=1")] "/x --a --b=1")) /\
  parse_command_string "/x -a -b" =
    Ok (Some (mkParsed "x" [] [("a", VBool true); ("b", VBool true)] "/x -a -b")).
Proof. split; reflexivity. Qed.

(** ** Argument validation *)

Lemma dict_get_Some_In {V} (k : string) (v : V) (d : list (string * V)) :
  dict_get k d = Some v -> In (k, v) d.
Proof.
  induction d as [|[k' v'] d IH]; simpl; [done|].
  destruct (String.eqb k k') eqn:E.
  - apply String.eqb_eq in E. intros [= ->]. left. by subst.
  - auto.
Qed.

Lemma type_map_unknown (t : string) :
  ~ In t ["str"; "int"; "float"; "bool"; "list"; "dict"] -> type_map t = None.
Proof.
  intros H. unfold type_map.
  repeat match goal with
         | |- (if String.eqb t ?x then _ else _) = _ =>
             destruct (String.eqb_spec t x) as [->|_];
             [exfalso; apply H; simpl; tauto|]
         end.
  reflexivity.
Qed.

Lemma type_map_not_any (t : string) (ty : PyType) :
  type_map t = Some ty -> String.eqb t "any" = false.
Proof.
  intros H. apply String.eqb_neq. intros ->. discriminate H.
Qed.

(** Whatever the loops report ends up in the one message. *)
Lemma validate_reports (parsed : ParsedCommand) (command : RegisteredCommand)
    (m : string) :
  In m (required_errors parsed (parameters (metadata command)) ++
        type_errors parsed (parameters (metadata command))) ->
  valid (validate_command_arguments parsed command) = false /\
  exists msg, verror (validate_command_arguments parsed command) = Some msg /\
              contains m msg.
Proof.
  unfold validate_command_arguments.
  destruct (parameters (metadata command)) as [|p ps] eqn:Hp.
  - unfold required_errors, type_errors. simpl.
    intros Hin. exfalso. apply list_elem_of_In, list_elem_of_omap in Hin.
    destruct Hin as ([k v] & _ & Hf). done.
  - intros Hin.
    destruct (required_errors parsed (p :: ps) ++ type_errors parsed (p :: ps))
      as [|e es] eqn:He; [done|].
    split; [reflexivity|]. exists (join "; " (e :: es)). split; [reflexivity|].
    by apply contains_join.
Qed.

(** C10: a declared type outside [str], [int], [float], [bool], [list],
    [dict] and [any] is never enforced.  [_validate_type] accepts every value
    against it, and an invocation checked against a schema whose parameters
    all declare that type gets no type error at all. *)
Theorem unknown_type_never_enforced (value : Val) (expected_type : string) :
  ~ In expected_type ["str"; "int"; "float"; "bool"; "list"; "dict"; "any"] ->
  _validate_type value expected_type = true /\
  forall parsed params,
    (forall k info, In (k, info) params -> p_type info = Some expected_type) ->
    type_errors parsed params = [].
Proof.
  intros H.
  assert (forall v, _validate_type v expected_type = true) as Hv.
  { intros v. unfold _validate_type.
    destruct (String.eqb expected_type "any"); [done|].
    rewrite type_map_unknown; [done|].
    intros Hin. apply H. simpl in *. tauto. }
  split; [apply Hv|].
  intros parsed params Hall. unfold type_errors.
  destruct (omap _ (kwargs parsed)) as [|m ms] eqn:E; [done|].
  assert (m ∈ m :: ms) as Hm by left. rewrite <- E in Hm.
  apply list_elem_of_omap in Hm as ([k v] & _ & Hf).
  destruct (dict_get k params) as [info|] eqn:Hget; [|done].
  apply dict_get_Some_In, Hall in Hget. rewrite Hget in Hf. simpl in Hf.
  by rewrite Hv in Hf.
Qed.

(** The declared type ["string"] against an integer. *)
Lemma unknown_type_never_enforced_witness :
  _validate_type (VInt 3) "string" = true /\
  type_errors (mkParsed "echo" [] [("msg", VInt 3)] "/echo --msg=3")
              [("msg", mkParam (Some "string") true None)] = [].
Proof.
  destruct (unknown_type_never_enforced (VInt 3) "string") as [H1 H2].
  - simpl. intros H.
    repeat (destruct H as [H|H]; [discriminate H|]). exact H.
  - split; [exact H1|]. apply H2.
    intros k info [[= <- <-]|[]]. reflexivity.
Defined.

(** C5, the claim as stated fails: [echo] declares [msg] with the type
    ["string"] and [n] with the type ["int"]; the invocation
    [/echo --msg=3 --n=true] supplies an integer for the one and a boolean
    for the other, and validation accepts it. *)
Lemma string_and_bool_pass_validation :
  parse_command_string "/echo --msg=3 --n=true" =
    Ok (Some (mkParsed "echo" [] [("msg", VInt 3); ("n", VBool true)]
                       "/echo --msg=3 --n=true")) /\
  dict_get "msg" (parameters (metadata Samples.echo)) =
    Some (mkParam (Some "string") true None) /\
  validate_command_arguments
    (mkParsed "echo" [] [("msg", VInt 3); ("n", VBool true)]
              "/echo --msg=3 --n=true") Samples.echo
  = mkValidation true None.
Proof. repeat split. Qed.

(** C5, as amended: validation fails, with one message that names every
    violation, whenever a required parameter is not among the keyword
    arguments while there is no positional argument, and whenever a supplied
    keyword declared with one of the types [str], [int], [float], [bool],
    [list], [dict] holds a value that is not an instance of that type (a
    boolean being an instance of [int]). *)
Theorem validation_accumulates (parsed : ParsedCommand) (command : RegisteredCommand) :
  (forall p info,
     In (p, info) (parameters (metadata command)) ->
     p_required info = true ->
     dict_has p (kwargs parsed) = false ->
     args parsed = [] ->
     valid (validate_command_arguments parsed command) = false /\
     exists msg, verror (validate_command_arguments parsed command) = Some msg /\
       contains ("Required parameter '" +:+ p +:+ "' is missing") msg) /\
  (forall k value info t ty,
     In (k, value) (kwargs parsed) ->
     dict_get k (parameters (metadata command)) = Some info ->
     p_type info = Some t ->
     type_map t = Some ty ->
     isinstance value ty = false ->
     valid (validate_command_arguments parsed command) = false /\
     exists msg, verror (validate_command_arguments parsed command) = Some msg /\
       contains ("Parameter '" +:+ k +:+ "' should be of type " +:+ t) msg).
Proof.
  split.
  - intros p info Hin Hreq Hkw Hargs.
    apply validate_reports, in_or_app. left.
    apply list_elem_of_In, list_elem_of_omap. exists (p, info).
    split; [by apply list_elem_of_In|].
    by rewrite Hreq, Hkw, Hargs.
  - intros k value info t ty Hin Hget Ht Hmap Hinst.
    apply validate_reports, in_or_app. right.
    apply list_elem_of_In, list_elem_of_omap. exists (k, value).
    split; [by apply list_elem_of_In|].
    rewrite Hget, Ht. simpl. unfold _validate_type.
    by rewrite (type_map_not_any _ _ Hmap), Hmap, Hinst.
Qed.

(** [/echo --n=x]: [msg] is missing and [n] is not an integer; both are in
    the message. *)
Lemma validation_accumulates_witness :
  let parsed := mkParsed "echo" [] [("n", VStr "x")] "/echo --n=x" in
  (valid (validate_command_arguments parsed Samples.echo) = false /\
   exists msg, verror (validate_command_arguments parsed Samples.echo) = Some msg /\
     contains "Required parameter 'msg' is missing" msg) /\
  (valid (validate_command_arguments parsed Samples.echo) = false /\
   exists msg, verror (validate_command_arguments parsed Samples.echo) = Some msg /\
     contains "Parameter 'n' should be of type int" msg).
Proof.
  intros parsed.
  destruct (validation_accumulates parsed Samples.echo) as [H1 H2]. split.
  - apply (H1 "msg" (mkParam (Some "string") true None));
      [simpl; auto | reflexivity | reflexivity | reflexivity].
  - apply (H2 "n" (VStr "x") (mkParam (Some "int") true None) "int" TInt);
      [simpl; auto | reflexivity | reflexivity | reflexivity | reflexivity].
Defined.

(** ** Execution *)

Lemma lacks_project_spec (context : Context) :
  lacks_project context =
  negb (truthy (default VNone (dict_get "project_path" (default [] context)))).
Proof. by destruct context as [[|]|]. Qed.

(** The [try ... except Exception] of [execute_parsed_command] returns on
    every path. *)
Lemma execute_parsed_command_returns (registry : CommandRegistry)
    (parsed : ParsedCommand) (context : Context) :
  exists r, execute_parsed_command registry parsed context = Ok r.
Proof.
  unfold execute_parsed_command, try_except.
  match goal with |- exists r, match ?b with _ => _ end = _ => destruct b end;
    eauto.
Qed.

(** What [execute_parsed_command] returns once the handler has raised. *)
Lemma execute_parsed_command_handler_raises (registry : CommandRegistry)
    (parsed : ParsedCommand) (context : Context)
    (ref : Ref) (command : RegisteredCommand) (e : Exn) :
  get_command registry (Parser.name parsed) = Some (ref, command) ->
  enabled command = true ->
  requires_project (metadata command) && lacks_project context = false ->
  valid (validate_command_arguments parsed command) = true ->
  h_call (handler command) (args parsed) (kwargs parsed) = Raise e ->
  execute_parsed_command registry parsed context =
    Ok (result false VNone
          (Some ("Command execution failed: " +:+
                 "Command '" +:+ Parser.name parsed +:+ "' execution failed: " +:+
                 exn_msg e))
          (Parser.name parsed)).
Proof.
  intros Hget Hen Hproj Hval Hcall.
  unfold execute_parsed_command, execute_command.
  rewrite Hget, Hen, Hproj, Hval. simpl.
  rewrite <- lacks_project_spec, Hproj, Hcall. reflexivity.
Qed.



(** ** Agents *)




(** ** The registry: keys and references *)

Lemma register_aliases_cons (r : Ref) (a : string) (als : list string)
    (cmds : list (string * Ref)) :
  register_aliases r (a :: als) cmds =
  register_aliases r als (if dict_has a cmds then cmds else dict_set a r cmds).
Proof. reflexivity. Qed.

(** A key already there keeps its object. *)
Lemma register_aliases_old (r : Ref) (als : list string)
    (cmds : list (string * Ref)) (k : string) (x : Ref) :
  dict_get k cmds = Some x -> dict_get k (register_aliases r als cmds) = Some x.
Proof.
  revert cmds. induction als as [|a als IH]; intros cmds H; [done|].
  rewrite register_aliases_cons. apply IH.
  destruct (dict_has a cmds) eqn:E; [done|].
  rewrite dict_get_set_ne; [done|].
  intros ->. apply dict_has_false in E. congruence.
Qed.

(** An alias that is not a key yet is bound to the new object. *)
Lemma register_aliases_new (r : Ref) (als : list string)
    (cmds : list (string * Ref)) (k : string) :
  In k als -> dict_get k cmds = None ->
  dict_get k (register_aliases r als cmds) = Some r.
Proof.
  revert cmds. induction als as [|a als IH]; intros cmds Hin Hk; [done|].
  rewrite register_aliases_cons.
  destruct (String.eqb_spec a k) as [->|Hne].
  - apply register_aliases_old.
    apply dict_has_false in Hk. rewrite Hk. apply dict_get_set_eq.
  - destruct Hin as [?|Hin]; [done|]. apply IH; [done|].
    destruct (dict_has a cmds); [done|]. by rewrite dict_get_set_ne.
Qed.

Lemma register_aliases_inv (r : Ref) (als : list string)
    (cmds : list (string * Ref)) (k : string) (x : Ref) :
  dict_get k (register_aliases r als cmds) = Some x ->
  x = r \/ dict_get k cmds = Some x.
Proof.
  revert cmds. induction als as [|a als IH]; intros cmds H; [by right|].
  rewrite register_aliases_cons in H. apply IH in H as [?|H]; [by left|].
  destruct (dict_has a cmds); [by right|].
  destruct (String.eqb_spec a k) as [->|Hne].
  - rewrite dict_get_set_eq in H. left. congruence.
  - rewrite dict_get_set_ne in H; auto.
Qed.

Lemma register_aliases_NoDup (r : Ref) (als : list string)
    (cmds : list (string * Ref)) :
  List.NoDup (dict_keys cmds) ->
  List.NoDup (dict_keys (register_aliases r als cmds)).
Proof.
  revert cmds. induction als as [|a als IH]; intros cmds H; [done|].
  rewrite register_aliases_cons. apply IH.
  destruct (dict_has a cmds); [done|]. by apply dict_keys_set_NoDup.
Qed.

Lemma remove_keys_cons (k : string) (ks : list string) (cmds : list (string * Ref)) :
  remove_keys (k :: ks) cmds =
  remove_keys ks (if dict_has k cmds then dict_del k cmds else cmds).
Proof. reflexivity. Qed.

Lemma remove_keys_NoDup (ks : list string) (cmds : list (string * Ref)) :
  List.NoDup (dict_keys cmds) -> List.NoDup (dict_keys (remove_keys ks cmds)).
Proof.
  revert cmds. induction ks as [|a ks IH]; intros cmds H; [done|].
  rewrite remove_keys_cons. apply IH.
  destruct (dict_has a cmds); [|done]. by apply dict_keys_del_NoDup.
Qed.

(** A key outside the list is untouched. *)
Lemma remove_keys_other (ks : list string) (cmds : list (string * Ref)) (k : string) :
  ~ In k ks -> dict_get k (remove_keys ks cmds) = dict_get k cmds.
Proof.
  revert cmds. induction ks as [|a ks IH]; intros cmds H; [done|].
  rewrite remove_keys_cons, IH by (simpl in H; tauto).
  destruct (dict_has a cmds); [|done].
  apply dict_get_del_ne. simpl in H. tauto.
Qed.

Lemma remove_keys_absent (ks : list string) (cmds : list (string * Ref)) (k : string) :
  dict_get k cmds = None -> dict_get k (remove_keys ks cmds) = None.
Proof.
  revert cmds. induction ks as [|a ks IH]; intros cmds H; [done|].
  rewrite remove_keys_cons. apply IH.
  destruct (dict_has a cmds); [|done].
  apply dict_get_None. intros Hin. apply dict_keys_del_incl in Hin.
  by apply dict_get_None in H.
Qed.

(** A key in the list is gone afterwards. *)
Lemma remove_keys_gone (ks : list string) (cmds : list (string * Ref)) (k : string) :
  List.NoDup (dict_keys cmds) -> In k ks -> dict_get k (remove_keys ks cmds) = None.
Proof.
  revert cmds. induction ks as [|a ks IH]; intros cmds Hnd Hin; [done|].
  rewrite remove_keys_cons.
  destruct (String.eqb_spec a k) as [->|Hne].
  - apply remove_keys_absent.
    destruct (dict_has k cmds) eqn:E.
    + by apply dict_get_del_eq.
    + by apply dict_has_false.
  - destruct Hin as [?|Hin]; [done|]. apply IH; [|done].
    destruct (dict_has a cmds); [|done]. by apply dict_keys_del_NoDup.
Qed.

Lemma remove_keys_inv (ks : list string) (cmds : list (string * Ref))
    (k : string) (x : Ref) :
  List.NoDup (dict_keys cmds) ->
  dict_get k (remove_keys ks cmds) = Some x -> dict_get k cmds = Some x.
Proof.
  intros Hnd H. destruct (in_dec string_dec k ks) as [Hin|Hout].
  - rewrite remove_keys_gone in H; done.
  - by rewrite remove_keys_other in H.
Qed.

(** Enabling and disabling leave the keys and the number of objects alone. *)
Lemma toggle_shape (b : bool) (self : CommandRegistry) (name : string) :
  commands (snd (toggle b self name)) = commands self /\
  length (store (snd (toggle b self name))) = length (store self).
Proof.
  unfold toggle. destruct (get_command self name) as [[r c]|]; simpl; [|done].
  by rewrite length_insert.
Qed.

Lemma toggles_shape (ops : list (bool * string)) (self : CommandRegistry) :
  commands (toggles ops self) = commands self /\
  length (store (toggles ops self)) = length (store self).
Proof.
  revert self. induction ops as [|[b n] ops IH]; intros self; [done|].
  change (toggles ((b, n) :: ops) self)
    with (toggles ops (snd (toggle b self n))).
  destruct (IH (snd (toggle b self n))) as [-> ->]. apply toggle_shape.
Qed.

(** Two keys bound to one reference name one object. *)
Lemma get_command_same_ref (self : CommandRegistry) (k1 k2 : string) (r : Ref) :
  dict_get k1 (commands self) = Some r ->
  dict_get k2 (commands self) = Some r ->
  (r < length (store self))%nat ->
  is_Some (get_command self k2) /\ get_command self k1 = get_command self k2.
Proof.
  intros H1 H2 Hr. unfold get_command. rewrite H1, H2. simpl.
  destruct (store self !! r) as [c|] eqn:E; simpl.
  - by split.
  - apply lookup_ge_None in E. lia.
Qed.

(** ** The registry: the states that occur *)

Lemma wf_empty : wf empty.
Proof. split; [constructor | done]. Qed.

Lemma wf_toggle (b : bool) (self : CommandRegistry) (name : string) :
  wf self -> wf (snd (toggle b self name)).
Proof.
  intros [Hnd Href]. destruct (toggle_shape b self name) as [Hc Hl].
  split; rewrite Hc; [done|]. intros k r H. rewrite Hl. eauto.
Qed.

Lemma wf_unregister_command (self : CommandRegistry) (name : string) :
  wf self -> wf (snd (unregister_command self name)).
Proof.
  intros [Hnd Href]. unfold unregister_command.
  destruct (dict_get name (commands self)) as [r|]; [|done].
  destruct (store self !! r) as [c|]; [|done]. simpl.
  split; simpl.
  - by apply remove_keys_NoDup.
  - intros k x H. apply remove_keys_inv in H; eauto.
Qed.

(** ** Registration *)

Section Register.
Variables (self : CommandRegistry) (name : string) (handler : Handler)
  (description category : string) (aliases : list string)
  (parameters : list (string * ParamInfo)) (examples tags : list string)
  (requires_project hidden : bool) (version : string) (now : Z * Z).

(** The registry after the call, the object the call creates and the
    reference it gets. *)
Local Abbreviation self' :=
  (register_command self name handler description category aliases parameters
                    examples tags requires_project hidden version now).
Local Abbreviation entry :=
  (mkCommand
     (mkMeta name description category aliases parameters examples version
             "spec-kit" tags requires_project hidden (fst now) (snd now))
     handler (default "unknown" (h_module handler)) true).
Local Abbreviation r := (length (store self)).

Lemma register_command_commands :
  commands self' = register_aliases r aliases (dict_set name r (commands self)).
Proof. unfold register_command. simpl. by destruct aliases. Qed.

Lemma register_command_store : store self' = store self ++ [entry].
Proof. reflexivity. Qed.

Lemma get_command_registered (k : string) :
  dict_get k (commands self') = Some r -> get_command self' k = Some (r, entry).
Proof.
  intros H. unfold get_command. rewrite H, register_command_store.
  simpl. rewrite list_lookup_middle; done.
Qed.

Lemma get_command_kept (k : string) :
  wf self ->
  dict_get k (commands self') = dict_get k (commands self) ->
  get_command self' k = get_command self k.
Proof.
  intros [_ Href] H. unfold get_command. rewrite H.
  destruct (dict_get k (commands self)) as [r0|] eqn:E; [|done].
  rewrite register_command_store. simpl. rewrite lookup_app_l; eauto.
Qed.

Lemma name_bound_to_new : dict_get name (commands self') = Some r.
Proof.
  rewrite register_command_commands.
  apply register_aliases_old, dict_get_set_eq.
Qed.

Lemma alias_bound_to_new (a : string) :
  In a aliases -> a = name \/ dict_has a (commands self) = false ->
  dict_get a (commands self') = Some r.
Proof.
  intros Hin Hfree. destruct (String.eqb_spec a name) as [->|Hne].
  - apply name_bound_to_new.
  - destruct Hfree as [?|Hfree]; [done|].
    rewrite register_command_commands. apply register_aliases_new; [done|].
    rewrite dict_get_set_ne by congruence. by apply dict_has_false.
Qed.

Lemma wf_register_command : wf self -> wf self'.
Proof.
  intros [Hnd Href]. split.
  - rewrite register_command_commands.
    by apply register_aliases_NoDup, dict_keys_set_NoDup.
  - intros k x H. rewrite register_command_store, length_app. simpl.
    rewrite register_command_commands in H.
    apply register_aliases_inv in H as [->|H]; [lia|].
    destruct (String.eqb_spec name k) as [->|Hne].
    + rewrite dict_get_set_eq in H. injection H as <-. lia.
    + rewrite dict_get_set_ne in H by done. apply Href in H. lia.
Qed.

(** C2, as amended: registering [name] again binds [name] to the new
    entry and binds to the new entry each alias of the new list that is
    not a key yet; every other key that is already there, so every alias
    of the earlier registration, whether the new list repeats it or not,
    keeps the entry it had. *)
Theorem reregistration_keeps_existing_keys :
  wf self ->
  get_command self' name = Some (r, entry) /\
  (forall a, In a aliases -> dict_has a (commands self) = false ->
             get_command self' a = Some (r, entry)) /\
  (forall k, k <> name -> dict_has k (commands self) = true ->
             get_command self' k = get_command self k).
Proof.
  intros Hwf. split; [|split].
  - apply get_command_registered, name_bound_to_new.
  - intros a Hin Hfree. apply get_command_registered, alias_bound_to_new; auto.
  - intros k Hne Hk. apply get_command_kept; [done|].
    apply dict_has_true in Hk as [x Hx]. rewrite Hx.
    rewrite register_command_commands. apply register_aliases_old.
    by rewrite dict_get_set_ne.
Qed.

(** C4, as amended: an alias that was not a key when the entry was
    registered (or that is the name itself) resolves to the same entry as
    the name, and goes on doing so after any run of [enable_command] and
    [disable_command] calls. *)
Theorem alias_follows_name_through_toggles (ops : list (bool * string)) (a : string) :
  In a aliases ->
  a = name \/ dict_has a (commands self) = false ->
  is_Some (get_command (toggles ops self') name) /\
  get_command (toggles ops self') a = get_command (toggles ops self') name.
Proof.
  intros Hin Hfree. destruct (toggles_shape ops self') as [Hc Hl].
  apply (get_command_same_ref _ _ _ r); rewrite ?Hc, ?Hl.
  - by apply alias_bound_to_new.
  - apply name_bound_to_new.
  - rewrite register_command_store, length_app. simpl. lia.
Qed.

End Register.

(** C2, the claim as stated fails: [n] is registered with the aliases [a]
    and [c] and then again with the aliases [b] and [c].  The stale alias
    [a] is still there, and the alias [c] of the new list still resolves to
    the first entry, not to the new one. *)
Lemma stale_alias_survives_reregistration :
  fst <$> get_command Samples.reg_n_twice "n" = Some 1%nat /\
  fst <$> get_command Samples.reg_n_twice "a" = Some 0%nat /\
  fst <$> get_command Samples.reg_n_twice "c" = Some 0%nat.
Proof. repeat split. Qed.

(** The same two registrations, through the theorem. *)
Lemma reregistration_keeps_existing_keys_witness :
  fst <$> get_command Samples.reg_n_twice "n" = Some 1%nat /\
  get_command Samples.reg_n_twice "b" = get_command Samples.reg_n_twice "n" /\
  get_command Samples.reg_n_twice "a" = get_command Samples.reg_n_once "a" /\
  get_command Samples.reg_n_twice "c" = get_command Samples.reg_n_once "c".
Proof.
  destruct (reregistration_keeps_existing_keys Samples.reg_n_once "n"
              Samples.h_boom "" "general" ["b"; "c"] [] [] [] false false
              "1.0.0" (1, 1)) as (Hn & Hnew & Hold).
  - apply wf_register_command, wf_empty.
  - split; [|split; [|split]].
    + unfold Samples.reg_n_twice, Samples.register. by rewrite Hn.
    + unfold Samples.reg_n_twice, Samples.register.
      rewrite Hn. apply Hnew; [simpl; auto | reflexivity].
    + apply Hold; [discriminate | reflexivity].
    + apply Hold; [discriminate | reflexivity].
Defined.

(** C4, the claim as stated fails: [a] is a registered name, and [n] is
    then registered with the alias [a].  The key [a] still resolves to the
    first entry, [n] to the second. *)
Lemma taken_alias_resolves_elsewhere :
  get_command Samples.reg_a_n "n" = Some (1%nat, Samples.h_boom_entry) /\
  In "a" (aliases (metadata Samples.h_boom_entry)) /\
  fst <$> get_command Samples.reg_a_n "a" = Some 0%nat /\
  get_command Samples.reg_a_n "a" <> get_command Samples.reg_a_n "n".
Proof.
  split; [reflexivity|]. split; [simpl; auto|]. split; [reflexivity|].
  intros H. apply (f_equal (fmap fst)) in H. discriminate H.
Qed.

(** [spec] with the alias [s], disabled through the alias and enabled
    through the name. *)
Lemma alias_follows_name_through_toggles_witness :
  let reg := toggles [(false, "s"); (true, "spec"); (false, "spec")] Samples.reg_spec in
  is_Some (get_command reg "spec") /\
  get_command reg "s" = get_command reg "spec".
Proof.
  apply (alias_follows_name_through_toggles empty "spec" Samples.h_ok ""
           "general" ["s"] [] [] [] false false "1.0.0" (0, 0)
           [(false, "s"); (true, "spec"); (false, "spec")] "s").
  - simpl. auto.
  - right. reflexivity.
Defined.

(** ** Unregistration *)

Lemma get_command_Some (self : CommandRegistry) (k : string) (r : Ref)
    (c : RegisteredCommand) :
  get_command self k = Some (r, c) <->
  dict_get k (commands self) = Some r /\ store self !! r = Some c.
Proof.
  unfold get_command. destruct (dict_get k (commands self)) as [r0|]; simpl.
  - destruct (store self !! r0) as [c0|] eqn:E; simpl.
    + split; [by intros [= <- <-] | intros [[= <-] H]; congruence].
    + split; [done | intros [[= <-] H]; congruence].
  - split; [done | by intros [? _]].
Qed.

(** What [unregister_command] does with a key it finds. *)
Lemma unregister_command_found (self : CommandRegistry) (a : string) (r : Ref)
    (E : RegisteredCommand) :
  dict_get a (commands self) = Some r ->
  store self !! r = Some E ->
  aliases (metadata E) <> [] ->
  fst (unregister_command self a) = true /\
  commands (snd (unregister_command self a)) =
    remove_keys (a :: aliases (metadata E)) (commands self) /\
  store (snd (unregister_command self a)) = store self.
Proof.
  intros Hget Hobj Hne. unfold unregister_command. rewrite Hget, Hobj.
  destruct (aliases (metadata E)) as [|x A]; [done|]. by simpl.
Qed.

(** C9, as amended: when every alias of the entry [E] registered under
    [n] resolves to [E], and [n] is not itself one of these aliases,
    [unregister_command] called with an alias returns [True] and removes
    every alias key, and [get_command(n)] still returns [E]. *)
Theorem unregister_by_alias_keeps_name (self : CommandRegistry) (n a : string)
    (r : Ref) (E : RegisteredCommand) :
  wf self ->
  get_command self n = Some (r, E) ->
  (forall x, In x (aliases (metadata E)) -> get_command self x = Some (r, E)) ->
  In a (aliases (metadata E)) ->
  ~ In n (aliases (metadata E)) ->
  fst (unregister_command self a) = true /\
  (forall x, In x (aliases (metadata E)) ->
             get_command (snd (unregister_command self a)) x = None) /\
  get_command (snd (unregister_command self a)) n = Some (r, E).
Proof.
  intros [Hnd _] Hn Hall Ha Hnot.
  destruct (proj1 (get_command_Some _ _ _ _) (Hall a Ha)) as [Hget Hobj].
  destruct (unregister_command_found self a r E Hget Hobj) as (Hb & Hc & Hs).
  { intros Hnil. by rewrite Hnil in Ha. }
  split; [done|]. split.
  - intros x Hx. unfold get_command. rewrite Hc.
    rewrite remove_keys_gone; [done | done | by right].
  - apply get_command_Some. rewrite Hc, Hs.
    apply get_command_Some in Hn as [Hn1 Hn2]. split; [|done].
    rewrite remove_keys_other; [done|].
    intros [->|Hin]; [done | by apply Hnot].
Qed.

(** [spec] with the alias [s], unregistered through [s]. *)
Lemma unregister_by_alias_keeps_name_witness :
  fst (unregister_command Samples.reg_spec "s") = true /\
  get_command (snd (unregister_command Samples.reg_spec "s")) "s" = None /\
  fst <$> get_command (snd (unregister_command Samples.reg_spec "s")) "spec"
    = Some 0%nat.
Proof.
  destruct (unregister_by_alias_keeps_name Samples.reg_spec "spec" "s" 0%nat
              (mkCommand
                 (mkMeta "spec" "" "general" ["s"] [] [] "1.0.0" "spec-kit" []
                         false false 0 0)
                 Samples.h_ok "handlers" true))
    as (Hb & Hgone & Hkept).
  - apply wf_register_command, wf_empty.
  - reflexivity.
  - intros x [<-|[]]. reflexivity.
  - simpl. auto.
  - simpl. intros [H|[]]. discriminate H.
  - split; [exact Hb|]. split; [apply Hgone; simpl; auto|].
    by rewrite Hkept.
Defined.

(** C9, the claim as stated fails: [n] is registered with the aliases [n]
    and [a], so that both aliases resolve to the entry;
    [unregister_command("a")] returns [True] and removes the key [n] as
    well. *)
Lemma own_name_as_alias_is_unregistered :
  fst <$> get_command Samples.reg_self_alias "n" = Some 0%nat /\
  aliases <$> (metadata <$> (snd <$> get_command Samples.reg_self_alias "n"))
    = Some ["n"; "a"] /\
  get_command Samples.reg_self_alias "a" = get_command Samples.reg_self_alias "n" /\
  fst (unregister_command Samples.reg_self_alias "a") = true /\
  get_command (snd (unregister_command Samples.reg_self_alias "a")) "n" = None.
Proof. repeat split. Qed.

(** ** Statistics *)

(** C3: with the one command [spec] and its alias [s], [get_stats]
    reports two commands, both enabled: the object is found at the key
    [spec] each time it is met, also when it is met under [s].
    [list_commands], which compares each key with the name of its own
    entry, lists one. *)
Theorem get_stats_counts_alias_keys :
  dict_keys (commands Samples.reg_spec) = ["spec"; "s"] /\
  total_commands (get_stats Samples.reg_spec) = 2 /\
  enabled_commands (get_stats Samples.reg_spec) = 2 /\
  length (list_commands Samples.reg_spec None true true) = 1%nat.
Proof. repeat split. Qed.

(* ===================================================================== *)
(** * Further properties of the registry                                  *)
(* ===================================================================== *)

(** ** Substring search *)

Lemma prefix_app (sub s : string) :
  String.prefix sub s = true <-> exists post, s = sub +:+ post.
Proof.
  revert sub. induction s as [|c' s IH]; intros [|c sub]; simpl.
  - split; [intros _; exists ""; reflexivity | done].
  - split; [done|]. intros [post H]. rewrite append_cons in H. discriminate H.
  - split; [intros _; exists (String c' s); reflexivity | done].
  - destruct (Ascii.ascii_dec c c') as [->|Hne].
    + rewrite IH. split; intros [post H]; exists post.
      * by rewrite append_cons, H.
      * rewrite append_cons in H. by injection H.
    + split; [done|]. intros [post H]. rewrite append_cons in H. congruence.
Qed.

(** [str_in] decides [contains]. *)
Lemma str_in_contains (sub s : string) : str_in sub s = true <-> contains sub s.
Proof.
  induction s as [|c s IH].
  - change (str_in sub "") with (String.prefix sub "" || false).
    rewrite orb_false_r, prefix_app. split.
    + intros [post H]. exists "", post. exact H.
    + intros (pre & post & H). destruct pre as [|x pre].
      * exists post. exact H.
      * rewrite append_cons in H. discriminate H.
  - change (str_in sub (String c s)) with (String.prefix sub (String c s) || str_in sub s).
    rewrite orb_true_iff, IH, prefix_app. split.
    + intros [[post H]|(pre & post & H)].
      * exists "", post. exact H.
      * exists (String c pre), post. by rewrite append_cons, H.
    + intros (pre & post & H). destruct pre as [|x pre].
      * left. exists post. exact H.
      * right. exists pre, post. rewrite append_cons in H. by injection H.
Qed.

Lemma str_in_empty (s : string) : str_in "" s = true.
Proof. destruct s; reflexivity. Qed.

(** ** Keys, references and objects *)

Lemma dict_get_In_NoDup {V} (k : string) (v : V) (d : list (string * V)) :
  List.NoDup (dict_keys d) -> In (k, v) d -> dict_get k d = Some v.
Proof.
  induction d as [|[k' v'] d IH]; simpl; [done|].
  intros Hnd [[= -> ->]|Hin].
  - by rewrite String.eqb_refl.
  - inversion Hnd as [|? ? Hout Hnd']; subst.
    destruct (String.eqb_spec k k') as [->|_]; [|auto].
    exfalso. apply Hout. change k' with (fst (k', v)). by apply in_map.
Qed.

(** The items are the keys with the objects they name. *)
Lemma In_items (self : CommandRegistry) (k : string) (c : RegisteredCommand) :
  wf self ->
  In (k, c) (items self) <-> exists r, get_command self k = Some (r, c).
Proof.
  intros [Hnd _]. unfold items. rewrite <- list_elem_of_In, list_elem_of_omap.
  split.
  - intros ([k' r] & Hin & Hf). simpl in Hf.
    destruct (store self !! r) as [c'|] eqn:E; [|done].
    injection Hf as -> ->. exists r. apply get_command_Some. split; [|done].
    apply dict_get_In_NoDup; [done | by apply list_elem_of_In].
  - intros [r H]. apply get_command_Some in H as [Hk Hr].
    exists (k, r). split; [by apply list_elem_of_In, dict_get_Some_In|].
    simpl. by rewrite Hr.
Qed.

Lemma length_items (self : CommandRegistry) :
  (length (items self) <= length (commands self))%nat.
Proof.
  unfold items. induction (commands self) as [|kr l IH]; [done|].
  change (omap ?f (kr :: l)) with
    (match f kr with Some y => y :: omap f l | None => omap f l end).
  match goal with |- context [match ?x with _ => _ end] => destruct x end;
    simpl; lia.
Qed.

(** In a registry that is [wf] every key resolves. *)
Lemma wf_key_resolves (self : CommandRegistry) (k : string) :
  wf self -> dict_has k (commands self) = true -> is_Some (get_command self k).
Proof.
  intros [_ Href] H. apply dict_has_true in H as [r Hr].
  destruct (lookup_lt_is_Some_2 (store self) r (Href _ _ Hr)) as [c Hc].
  exists (r, c). by apply get_command_Some.
Qed.

(** ** The states a sequence of calls reaches *)

Lemma list_remove_incl (x y : string) (l : list string) :
  In y (list_remove x l) -> In y l.
Proof.
  induction l as [|z l IH]; simpl; [done|].
  destruct (String.eqb x z); simpl; tauto.
Qed.

Lemma list_remove_NoDup (x : string) (l : list string) :
  List.NoDup l -> List.NoDup (list_remove x l).
Proof.
  induction l as [|z l IH]; simpl; [done|].
  intros H. inversion H as [|? ? Hout Hnd]; subst.
  destruct (String.eqb x z); [done|].
  constructor; [|auto]. intros Hin. by apply Hout, (list_remove_incl x).
Qed.

Lemma existsb_eqb_In (x : string) (l : list string) :
  existsb (String.eqb x) l = true <-> In x l.
Proof.
  rewrite existsb_exists. split.
  - intros (y & Hin & Heq). apply String.eqb_eq in Heq. by subst.
  - intros Hin. exists x. by rewrite String.eqb_refl.
Qed.

(** Setting one key of a dictionary of lists without duplicates to such a
    list keeps the dictionary that way. *)
Lemma categories_set (cat : string) (names : list string)
    (cats : list (string * list string)) :
  List.NoDup names ->
  List.NoDup (dict_keys cats) /\
    (forall c ns, dict_get c cats = Some ns -> List.NoDup ns) ->
  List.NoDup (dict_keys (dict_set cat names cats)) /\
    (forall c ns, dict_get c (dict_set cat names cats) = Some ns -> List.NoDup ns).
Proof.
  intros Hn [Hk Hl]. split; [by apply dict_keys_set_NoDup|].
  intros c ns. destruct (String.eqb_spec cat c) as [->|Hne].
  - rewrite dict_get_set_eq. by intros [= <-].
  - rewrite dict_get_set_ne by done. apply Hl.
Qed.

Lemma categories_wf_register (self : CommandRegistry)
    (name : string) (handler : Handler) (description category : string)
    (aliases : list string) (parameters : list (string * ParamInfo))
    (examples tags : list string) (requires_project hidden : bool)
    (version : string) (now : Z * Z) :
  categories_wf self ->
  categories_wf (register_command self name handler description category aliases
                   parameters examples tags requires_project hidden version now).
Proof.
  intros H. unfold categories_wf, register_command. simpl.
  set (cats := if dict_has category (categories self) then categories self
               else dict_set category [] (categories self)).
  assert (List.NoDup (dict_keys cats) /\
          (forall c ns, dict_get c cats = Some ns -> List.NoDup ns)) as Hc.
  { unfold cats. destruct (dict_has category (categories self)); [done|].
    apply categories_set; [constructor | done]. }
  destruct (existsb (String.eqb name) (default [] (dict_get category cats))) eqn:E;
    [done|].
  apply categories_set; [|done].
  apply NoDup_ListNoDup, NoDup_app. split; [|split].
  - apply NoDup_ListNoDup. destruct (dict_get category cats) eqn:G; simpl.
    + by apply (proj2 Hc category).
    + constructor.
  - intros x Hx Hx'. apply list_elem_of_singleton in Hx'. subst x.
    apply list_elem_of_In, existsb_eqb_In in Hx. congruence.
  - apply NoDup_singleton.
Qed.

Lemma categories_wf_unregister (self : CommandRegistry) (name : string) :
  categories_wf self -> categories_wf (snd (unregister_command self name)).
Proof.
  intros H. unfold unregister_command.
  destruct (dict_get name (commands self)) as [r|]; [|done].
  destruct (store self !! r) as [c|]; [|done].
  unfold categories_wf. simpl.
  destruct (dict_get (category (metadata c)) (categories self)) as [names|] eqn:G;
    [|done].
  destruct (existsb (String.eqb name) names); [|done].
  apply categories_set; [|done].
  apply list_remove_NoDup. by apply (proj2 H (category (metadata c))).
Qed.

Lemma call_keeps_invariants (self : CommandRegistry) (c : Call) :
  wf self /\ categories_wf self -> wf (call self c) /\ categories_wf (call self c).
Proof.
  intros [Hw Hc]. destruct c as [n h d ca al ps ex tg rp hd v nw | n | n | n |]; simpl.
  - split; [by apply wf_register_command | by apply categories_wf_register].
  - split; [by apply wf_unregister_command | by apply categories_wf_unregister].
  - split; [by apply wf_toggle|].
    unfold enable_command, toggle. by destruct (get_command self n) as [[? ?]|].
  - split; [by apply wf_toggle|].
    unfold disable_command, toggle. by destruct (get_command self n) as [[? ?]|].
  - split; split; simpl; try constructor; done.
Qed.

(** X1: whatever sequence of [register_command], [unregister_command],
    [enable_command], [disable_command] and [clear] calls is made on a new
    registry, [self.commands] never holds a key without an object behind it
    (every key resolves through [get_command]), no category is there twice
    and no category lists a name twice. *)
Theorem reachable_registry_is_consistent (cs : list Call) :
  wf (after_calls cs) /\
  categories_wf (after_calls cs) /\
  forall k, dict_has k (commands (after_calls cs)) = true ->
            is_Some (get_command (after_calls cs) k).
Proof.
  assert (forall self, wf self /\ categories_wf self ->
            wf (fold_left call cs self) /\ categories_wf (fold_left call cs self))
    as H.
  { induction cs as [|c cs IH]; intros self Hs; [done|].
    simpl. by apply IH, call_keeps_invariants. }
  destruct (H empty) as [Hw Hc].
  { split; [apply wf_empty|]. split; [constructor | done]. }
  split; [done|]. split; [done|]. intros k. by apply wf_key_resolves.
Qed.

(** ** Unregistering by name *)

Lemma unregister_command_effect (self : CommandRegistry) (name : string)
    (r : Ref) (E : RegisteredCommand) :
  dict_get name (commands self) = Some r ->
  store self !! r = Some E ->
  fst (unregister_command self name) = true /\
  commands (snd (unregister_command self name)) =
    remove_keys (name :: aliases (metadata E)) (commands self) /\
  store (snd (unregister_command self name)) = store self.
Proof.
  intros Hget Hobj. unfold unregister_command. rewrite Hget, Hobj.
  by destruct (aliases (metadata E)).
Qed.

(** X2: [unregister_command] on a key it does not know returns [False]
    and changes nothing.  On a key it knows it returns [True]; afterwards
    that key and every alias listed in the entry it named are absent, and
    every other key resolves as before. *)
Theorem unregister_command_removes_name_and_aliases (self : CommandRegistry)
    (name : string) :
  wf self ->
  (dict_has name (commands self) = false ->
   unregister_command self name = (false, self)) /\
  (forall r E, get_command self name = Some (r, E) ->
     fst (unregister_command self name) = true /\
     (forall x, x = name \/ In x (aliases (metadata E)) ->
                get_command (snd (unregister_command self name)) x = None) /\
     (forall k, k <> name -> ~ In k (aliases (metadata E)) ->
                get_command (snd (unregister_command self name)) k =
                get_command self k)).
Proof.
  intros [Hnd _]. split.
  - intros H. apply dict_has_false in H. unfold unregister_command. by rewrite H.
  - intros r E H. apply get_command_Some in H as [Hget Hobj].
    destruct (unregister_command_effect self name r E Hget Hobj) as (Hb & Hc & Hs).
    split; [done|]. split.
    + intros x Hx. unfold get_command. rewrite Hc, remove_keys_gone; [done|done|].
      destruct Hx as [->|Hx]; [by left | by right].
    + intros k Hne Hk. unfold get_command. rewrite Hc, Hs, remove_keys_other; [done|].
      intros [?|?]; [by subst | done].
Qed.

(** [spec] and its alias [s] go together; nothing else was there. *)
Lemma unregister_command_removes_name_and_aliases_witness :
  fst (unregister_command Samples.reg_spec "spec") = true /\
  get_command (snd (unregister_command Samples.reg_spec "spec")) "spec" = None /\
  get_command (snd (unregister_command Samples.reg_spec "spec")) "s" = None /\
  unregister_command Samples.reg_spec "plan" = (false, Samples.reg_spec).
Proof.
  destruct (unregister_command_removes_name_and_aliases Samples.reg_spec "spec")
    as [_ H]; [apply wf_register_command, wf_empty|].
  destruct (unregister_command_removes_name_and_aliases Samples.reg_spec "plan")
    as [H' _]; [apply wf_register_command, wf_empty|].
  destruct (H 0%nat (mkCommand
                      (mkMeta "spec" "" "general" ["s"] [] [] "1.0.0" "spec-kit" []
                              false false 0 0)
                      Samples.h_ok "handlers" true)) as (Hb & Hgone & _);
    [reflexivity|].
  split; [exact Hb|]. split; [apply Hgone; by left|].
  split; [apply Hgone; right; simpl; auto|]. apply H'. reflexivity.
Defined.

(** ** Listing *)

(** Membership in the result of [list_commands]. *)
Lemma In_list_commands (self : CommandRegistry)
    (category : option string) (include_hidden include_disabled : bool)
    (c : RegisteredCommand) :
  wf self ->
  In c (list_commands self category include_hidden include_disabled) <->
  (exists r, get_command self (name (metadata c)) = Some (r, c)) /\
  (forall cat, category = Some cat -> cat <> "" ->
               Registry.category (metadata c) = cat) /\
  (hidden (metadata c) = true -> include_hidden = true) /\
  (enabled c = false -> include_disabled = true).
Proof.
  intros Hwf.
  unfold list_commands. rewrite <- list_elem_of_In, list_elem_of_omap. split.
  - intros ([k c'] & Hin & Hf).
    destruct (String.eqb_spec (name (metadata c')) k) as [<-|]; [|done].
    simpl in Hf.
    destruct (match category with Some _ => _ | None => _ end) eqn:Hcat; [done|].
    destruct (hidden (metadata c') && negb include_hidden) eqn:Hh; [done|].
    destruct (negb (enabled c') && negb include_disabled) eqn:He; [done|].
    injection Hf as <-.
    split; [by apply In_items, list_elem_of_In|]. split; [|split].
    + intros cat -> Hne. apply String.eqb_neq in Hne. rewrite Hne in Hcat.
      simpl in Hcat. apply negb_false_iff in Hcat. by apply String.eqb_eq.
    + intros Hx. rewrite Hx in Hh. by destruct include_hidden.
    + intros Hx. rewrite Hx in He. by destruct include_disabled.
  - intros ([r Hr] & Hcat & Hh & He).
    exists (name (metadata c), c).
    split; [apply list_elem_of_In, In_items; eauto|].
    rewrite String.eqb_refl. simpl.
    assert (match category with
            | Some cat => negb (String.eqb cat "") &&
                          negb (String.eqb (Registry.category (metadata c)) cat)
            | None => false
            end = false) as ->.
    { destruct category as [cat|]; [|done].
      destruct (String.eqb_spec cat "") as [|Hne]; [done|]. simpl.
      rewrite (Hcat cat eq_refl Hne). by rewrite String.eqb_refl. }
    destruct (hidden (metadata c)); [rewrite Hh by done|];
      (destruct (enabled c); [|rewrite He by done]); reflexivity.
Qed.

(** X3: [list_commands] returns exactly the entries that are registered
    under their own name and pass the three filters; an alias key never
    contributes an entry, so the list is never longer than the dictionary. *)
Theorem list_commands_lists_primary_entries (self : CommandRegistry)
    (category : option string) (include_hidden include_disabled : bool)
    (c : RegisteredCommand) :
  wf self ->
  (In c (list_commands self category include_hidden include_disabled) <->
   (exists r, get_command self (name (metadata c)) = Some (r, c)) /\
   (forall cat, category = Some cat -> cat <> "" ->
                Registry.category (metadata c) = cat) /\
   (hidden (metadata c) = true -> include_hidden = true) /\
   (enabled c = false -> include_disabled = true)) /\
  (length (list_commands self category include_hidden include_disabled)
     <= length (commands self))%nat.
Proof.
  intros Hwf. split; [by apply In_list_commands|].
  etrans; [|apply length_items]. unfold list_commands.
  induction (items self) as [|kc l IH]; [done|].
  change (omap ?f (kc :: l)) with
    (match f kc with Some y => y :: omap f l | None => omap f l end).
  match goal with |- context [match ?x with _ => _ end] => destruct x end;
    simpl; lia.
Qed.

(** [spec] is listed once although two keys name it. *)
Lemma list_commands_lists_primary_entries_witness :
  exists c, list_commands Samples.reg_spec None false false = [c] /\
            get_command Samples.reg_spec "spec" = Some (0%nat, c) /\
            get_command Samples.reg_spec "s" = Some (0%nat, c).
Proof.
  destruct (list_commands_lists_primary_entries Samples.reg_spec None false false
              (mkCommand
                 (mkMeta "spec" "" "general" ["s"] [] [] "1.0.0" "spec-kit" []
                         false false 0 0)
                 Samples.h_ok "handlers" true))
    as [[H _] _]; [apply wf_register_command, wf_empty|].
  destruct (H ltac:(simpl; auto)) as ([r Hr] & _).
  eexists. split; [reflexivity|]. split; reflexivity.
Defined.

(** ** Searching *)

Lemma existsb_str_in (q : string) (l : list string) :
  existsb (fun t => str_in q (lower t)) l = true <->
  exists t, In t l /\ contains q (lower t).
Proof.
  rewrite existsb_exists. split; intros (t & Hin & H); exists t;
    (split; [done|]); by apply str_in_contains.
Qed.

(** X4: [search_commands] returns, in listing order, the entries
    [list_commands] gives (disabled ones left out) whose name, description
    or one of whose tags contains the query, letter case ignored on both
    sides; with the empty query it returns every one of them. *)
Theorem search_commands_finds_substrings (self : CommandRegistry)
    (query : string) (category : option string) (include_hidden : bool) :
  (forall c,
     In c (search_commands self query category include_hidden) <->
     In c (list_commands self category include_hidden false) /\
     (contains (lower query) (lower (name (metadata c))) \/
      contains (lower query) (lower (description (metadata c))) \/
      exists tag, In tag (tags (metadata c)) /\
                  contains (lower query) (lower tag))) /\
  search_commands self "" category include_hidden =
    list_commands self category include_hidden false.
Proof.
  assert (forall q, search_commands self q category include_hidden =
                    List.filter (matches_query (lower q))
                      (list_commands self category include_hidden false)) as Hs.
  { intros q. unfold search_commands. f_equal.
    destruct category as [cat|]; [|done].
    destruct (String.eqb_spec cat "") as [->|Hne]; [|done].
    unfold list_commands. done. }
  split.
  - intros c. rewrite Hs, filter_In. unfold matches_query.
    rewrite <- !str_in_contains, <- existsb_str_in.
    destruct (str_in _ (lower (name (metadata c)))); [tauto|].
    destruct (str_in _ (lower (description (metadata c)))); [tauto|].
    destruct (existsb _ _); intuition discriminate.
  - rewrite Hs. apply forallb_filter_id, forallb_forall.
    intros c _. unfold matches_query. simpl. by rewrite str_in_empty.
Qed.

(** ** Enabling and disabling *)

Lemma toggle_found (b : bool) (self : CommandRegistry) (name : string)
    (r : Ref) (c : RegisteredCommand) :
  get_command self name = Some (r, c) ->
  toggle b self name =
    (true, mkRegistry (<[r := set_enabled b c]> (store self))
                      (commands self) (categories self)).
Proof. intros H. unfold toggle. by rewrite H. Qed.

(** After a toggle, every key of the toggled object shows the new flag. *)
Lemma toggle_visible (b : bool) (self : CommandRegistry) (name k : string)
    (r : Ref) (c : RegisteredCommand) :
  get_command self name = Some (r, c) ->
  dict_get k (commands self) = Some r ->
  get_command (snd (toggle b self name)) k = Some (r, set_enabled b c).
Proof.
  intros H Hk. rewrite (toggle_found _ _ _ _ _ H). simpl.
  apply get_command_Some in H as [_ Hr]. apply get_command_Some. simpl.
  split; [done|]. apply list_lookup_insert_eq. by eapply lookup_lt_Some.
Qed.

(** X5: a toggle that puts the flag back where it was gives the registry
    back: [enable_command] after [disable_command] on an enabled command
    (and the other way round on a disabled one) returns to the very state
    before, whichever keys of the object the two calls use. *)
Theorem toggle_back_restores_registry (b : bool) (self : CommandRegistry)
    (name k : string) (r : Ref) (c : RegisteredCommand) :
  get_command self name = Some (r, c) ->
  dict_get k (commands self) = Some r ->
  snd (toggle (enabled c) (snd (toggle b self name)) k) = self.
Proof.
  intros H Hk. rewrite (toggle_found _ _ _ _ _ (toggle_visible b _ _ _ _ _ H Hk)).
  rewrite (toggle_found _ _ _ _ _ H). simpl.
  apply get_command_Some in H as [_ Hr].
  rewrite list_insert_insert_eq.
  assert (set_enabled (enabled c) (set_enabled b c) = c) as -> by by destruct c.
  rewrite list_insert_id by done. by destruct self.
Qed.

(** [spec], disabled through its alias and enabled through its name. *)
Lemma toggle_back_restores_registry_witness :
  snd (enable_command (snd (disable_command Samples.reg_spec "s")) "spec")
    = Samples.reg_spec.
Proof.
  apply (toggle_back_restores_registry false Samples.reg_spec "s" "spec" 0%nat
           (mkCommand
              (mkMeta "spec" "" "general" ["s"] [] [] "1.0.0" "spec-kit" []
                      false false 0 0)
              Samples.h_ok "handlers" true)); reflexivity.
Defined.

(** ** Statistics in general *)

Lemma filter_length_le {A} (P Q : A -> Prop) `{!forall x, Decision (P x)}
    `{!forall x, Decision (Q x)} (l : list A) :
  (forall x, P x -> Q x) ->
  (length (filter P l) <= length (filter Q l))%nat.
Proof.
  intros HPQ. induction l as [|x l IH]; [done|].
  rewrite !filter_cons. destruct (decide (P x)) as [HP|HP].
  - rewrite decide_True by auto. simpl. lia.
  - destruct (decide (Q x)); simpl; lia.
Qed.

(** X6: in every registry the numbers of [get_stats] fit together:
    [enabled_commands + disabled_commands = total_commands], none of the
    three is negative, [total_commands] is at most the number of keys, and
    [categories] is the number of entries of [commands_per_category], which
    has one entry for each category of [list_categories], in its order. *)
Theorem get_stats_numbers_fit (self : CommandRegistry) :
  let st := get_stats self in
  enabled_commands st + disabled_commands st = total_commands st /\
  0 <= enabled_commands st /\ 0 <= disabled_commands st /\
  total_commands st <= Z.of_nat (length (commands self)) /\
  n_categories st = Z.of_nat (length (commands_per_category st)) /\
  dict_keys (commands_per_category st) = list_categories self.
Proof.
  unfold get_stats. simpl.
  set (vs := dict_values (items self)).
  assert (length (filter (fun c => enabled c && name_is_first_key self c = true) vs)
          <= length (filter (fun c => name_is_first_key self c = true) vs))%nat as H1.
  { apply filter_length_le. intros c Hc. by apply andb_true_iff in Hc as [_ ?]. }
  assert (length (filter (fun c => name_is_first_key self c = true) vs)
          <= length (commands self))%nat as H2.
  { etrans; [apply length_filter|]. unfold vs, dict_values.
    rewrite length_map. apply length_items. }
  repeat split; try lia.
  - by rewrite length_map.
  - unfold list_categories, dict_keys. rewrite map_map. by apply map_ext.
Qed.

(* ===================================================================== *)
(** * Further properties of the executor                                  *)
(* ===================================================================== *)

(** ** Validation, both ways *)

Lemma omap_nil_iff {A B} (f : A -> option B) (l : list A) :
  omap f l = [] <-> forall x, In x l -> f x = None.
Proof.
  split.
  - intros H x Hx. destruct (f x) as [y|] eqn:E; [|done].
    assert (y ∈ omap f l) as Hy.
    { apply list_elem_of_omap. exists x. split; [by apply list_elem_of_In | done]. }
    rewrite H in Hy. by apply not_elem_of_nil in Hy.
  - intros H. destruct (omap f l) as [|y ys] eqn:E; [done|].
    assert (y ∈ omap f l) as Hy by (rewrite E; left).
    apply list_elem_of_omap in Hy as (x & Hx & Hf).
    apply list_elem_of_In, H in Hx. congruence.
Qed.

Lemma validate_valid_iff (parsed : ParsedCommand) (command : RegisteredCommand) :
  valid (validate_command_arguments parsed command) = true <->
  required_errors parsed (parameters (metadata command)) = [] /\
  type_errors parsed (parameters (metadata command)) = [].
Proof.
  unfold validate_command_arguments.
  destruct (parameters (metadata command)) as [|p ps] eqn:Hp.
  - split; [|done]. intros _. split; [done|].
    apply omap_nil_iff. by intros [k v] _.
  - destruct (required_errors parsed (p :: ps) ++ type_errors parsed (p :: ps))
      as [|e es] eqn:He.
    + apply app_eq_nil in He. by split.
    + split; [done|]. intros [H1 H2]. by rewrite H1, H2 in He.
Qed.

(** X7: validation passes exactly when every required parameter is among
    the keyword arguments or there is at least one positional argument, and
    every supplied keyword that the schema declares passes [_validate_type]
    against its declared type ([any] when the entry declares none).  So one
    positional argument is enough to satisfy every required parameter, and
    keywords the schema does not declare are never looked at. *)
Theorem validation_passes_iff (parsed : ParsedCommand) (command : RegisteredCommand) :
  valid (validate_command_arguments parsed command) = true <->
  (forall p info, In (p, info) (parameters (metadata command)) ->
     p_required info = true ->
     dict_has p (kwargs parsed) = true \/ args parsed <> []) /\
  (forall k value info, In (k, value) (kwargs parsed) ->
     dict_get k (parameters (metadata command)) = Some info ->
     _validate_type value (default "any" (p_type info)) = true).
Proof.
  rewrite validate_valid_iff. unfold required_errors, type_errors.
  rewrite !omap_nil_iff. split.
  - intros [Hreq Hty]. split.
    + intros p info Hin Hr. specialize (Hreq _ Hin). simpl in Hreq.
      rewrite Hr in Hreq. simpl in Hreq.
      destruct (dict_has p (kwargs parsed)); [by left|]. right.
      destruct (args parsed); [done | discriminate].
    + intros k value info Hin Hget. specialize (Hty _ Hin). simpl in Hty.
      rewrite Hget in Hty. by destruct (_validate_type _ _).
  - intros [Hreq Hty]. split.
    + intros [p info] Hin. simpl.
      destruct (p_required info) eqn:Hr; [|done]. simpl.
      destruct (Hreq _ _ Hin Hr) as [-> | Ha]; [done|].
      destruct (dict_has p (kwargs parsed)); [done|].
      by destruct (args parsed).
    + intros [k value] Hin. simpl.
      destruct (dict_get k (parameters (metadata command))) as [info|] eqn:Hget;
        [|done].
      by rewrite (Hty _ _ _ Hin Hget).
Qed.

(** ** What each path of [execute_parsed_command] returns *)

Section Paths.
Variables (registry : CommandRegistry) (parsed : ParsedCommand) (context : Context).

Lemma path_not_found :
  get_command registry (Parser.name parsed) = None ->
  execute_parsed_command registry parsed context =
    Ok (result false VNone
          (Some ("Command '" +:+ Parser.name parsed +:+ "' not found"))
          (Parser.name parsed)).
Proof. intros H. unfold execute_parsed_command. by rewrite H. Qed.

Lemma path_disabled (r : Ref) (c : RegisteredCommand) :
  get_command registry (Parser.name parsed) = Some (r, c) ->
  enabled c = false ->
  execute_parsed_command registry parsed context =
    Ok (result false VNone
          (Some ("Command '" +:+ Parser.name parsed +:+ "' is disabled"))
          (Parser.name parsed)).
Proof. intros H He. unfold execute_parsed_command. by rewrite H, He. Qed.

Lemma path_no_project (r : Ref) (c : RegisteredCommand) :
  get_command registry (Parser.name parsed) = Some (r, c) ->
  enabled c = true ->
  requires_project (metadata c) && lacks_project context = true ->
  execute_parsed_command registry parsed context =
    Ok (result false VNone
          (Some ("Command '" +:+ Parser.name parsed +:+
                 "' requires a project context"))
          (Parser.name parsed)).
Proof. intros H He Hp. unfold execute_parsed_command. by rewrite H, He, Hp. Qed.

Lemma path_invalid (r : Ref) (c : RegisteredCommand) :
  get_command registry (Parser.name parsed) = Some (r, c) ->
  enabled c = true ->
  requires_project (metadata c) && lacks_project context = false ->
  valid (validate_command_arguments parsed c) = false ->
  execute_parsed_command registry parsed context =
    Ok (result false VNone (verror (validate_command_arguments parsed c))
          (Parser.name parsed)).
Proof.
  intros H He Hp Hv. unfold execute_parsed_command. by rewrite H, He, Hp, Hv.
Qed.

Lemma path_handler_returns (r : Ref) (c : RegisteredCommand) (v : Val) :
  get_command registry (Parser.name parsed) = Some (r, c) ->
  enabled c = true ->
  requires_project (metadata c) && lacks_project context = false ->
  valid (validate_command_arguments parsed c) = true ->
  h_call (handler c) (args parsed) (kwargs parsed) = Ok v ->
  execute_parsed_command registry parsed context =
    Ok (result true v None (Parser.name parsed)).
Proof.
  intros H He Hp Hv Hc. unfold execute_parsed_command, execute_command.
  rewrite H, He, Hp, Hv. simpl.
  by rewrite <- lacks_project_spec, Hp, Hc.
Qed.

(** A result with [success = True] comes from the last path only. *)
Lemma success_means_handler_returned (res : CommandResult) :
  execute_parsed_command registry parsed context = Ok res ->
  success res = true ->
  exists r c,
    get_command registry (Parser.name parsed) = Some (r, c) /\
    enabled c = true /\
    requires_project (metadata c) && lacks_project context = false /\
    valid (validate_command_arguments parsed c) = true /\
    h_call (handler c) (args parsed) (kwargs parsed) = Ok (output res) /\
    error res = None /\ command_name res = Parser.name parsed.
Proof.
  intros Hres Hs.
  destruct (get_command registry (Parser.name parsed)) as [[r c]|] eqn:Hget.
  2: { rewrite path_not_found in Hres by done. injection Hres as <-. done. }
  destruct (enabled c) eqn:He.
  2: { rewrite (path_disabled r c) in Hres by done. injection Hres as <-. done. }
  destruct (requires_project (metadata c) && lacks_project context) eqn:Hp.
  { rewrite (path_no_project r c) in Hres by done. injection Hres as <-. done. }
  destruct (valid (validate_command_arguments parsed c)) eqn:Hv.
  2: { rewrite (path_invalid r c) in Hres by done. injection Hres as <-. done. }
  destruct (h_call (handler c) (args parsed) (kwargs parsed)) as [v|e] eqn:Hc.
  - rewrite (path_handler_returns r c v) in Hres by done. injection Hres as <-.
    exists r, c. by repeat split.
  - rewrite (execute_parsed_command_handler_raises _ _ _ r c e) in Hres by done.
    injection Hres as <-. done.
Qed.

End Paths.

(** ** [execute_string] from end to end *)

Lemma execute_string_parsed (registry : CommandRegistry) (command_string : string)
    (context : Context) (clock : Z * Z) (parsed : ParsedCommand)
    (res : CommandResult) :
  parse_command_string command_string = Ok (Some parsed) ->
  execute_parsed_command registry parsed context = Ok res ->
  execute_string registry command_string context clock =
    Ok (mkResult (success res) (output res) (error res) (command_name res)
                 (snd clock - fst clock) context).
Proof.
  intros Hp Hr. unfold execute_string. rewrite Hp. simpl. by rewrite Hr.
Qed.

(** X8: [execute_string] reports [success = True] exactly when the text
    parses, the name resolves to an enabled command whose project
    requirement and parameter schema are met, and the handler, called with
    the parsed positional and keyword arguments, returns; the result then
    carries the returned value as [output], no [error], the parsed name, and
    the context it was given. *)
Theorem execute_string_succeeds_iff_handler_returns (registry : CommandRegistry)
    (command_string : string) (context : Context) (clock : Z * Z)
    (res : CommandResult) :
  execute_string registry command_string context clock = Ok res ->
  (success res = true <->
   exists parsed r c,
     parse_command_string command_string = Ok (Some parsed) /\
     get_command registry (Parser.name parsed) = Some (r, c) /\
     enabled c = true /\
     requires_project (metadata c) && lacks_project context = false /\
     valid (validate_command_arguments parsed c) = true /\
     h_call (handler c) (args parsed) (kwargs parsed) = Ok (output res) /\
     error res = None /\
     command_name res = Parser.name parsed /\
     Executor.context res = context).
Proof.
  intros Hres. split.
  - intros Hs.
    destruct (parse_command_string command_string) as [[parsed|]|e] eqn:Hp.
    + destruct (execute_parsed_command_returns registry parsed context) as [r0 Hr0].
      rewrite (execute_string_parsed _ _ _ _ _ _ Hp Hr0) in Hres.
      injection Hres as <-. simpl in *.
      destruct (success_means_handler_returned _ _ _ _ Hr0 Hs)
        as (r & c & ? & ? & ? & ? & ? & ? & ?).
      exists parsed, r, c. by repeat split.
    + unfold execute_string in Hres. rewrite Hp in Hres. simpl in Hres.
      injection Hres as <-. done.
    + unfold execute_string in Hres. rewrite Hp in Hres. simpl in Hres.
      injection Hres as <-. done.
  - intros (parsed & r & c & Hp & Hget & He & Hpr & Hv & Hc & _).
    rewrite (execute_string_parsed _ _ _ _ _ _ Hp
               (path_handler_returns _ _ _ r c _ Hget He Hpr Hv Hc)) in Hres.
    by injection Hres as <-.
Qed.

(** [/s 1] on the registry with [spec] and its alias [s]. *)
Lemma execute_string_succeeds_iff_handler_returns_witness :
  exists res,
    execute_string Samples.reg_spec "/s 1" None (5, 9) = Ok res /\
    success res = true /\ output res = VNone /\ command_name res = "s".
Proof.
  eexists. split; [reflexivity|].
  destruct (execute_string_succeeds_iff_handler_returns Samples.reg_spec "/s 1"
              None (5, 9) (mkResult true VNone None "s" 4 None) eq_refl)
    as [_ H].
  split; [|by split]. apply H.
  exists (mkParsed "s" [VInt 1] [] "/s 1"), 0%nat,
         (mkCommand
            (mkMeta "spec" "" "general" ["s"] [] [] "1.0.0" "spec-kit" []
                    false false 0 0)
            Samples.h_ok "handlers" true).
  by repeat split.
Defined.

(** X9: the three refusals that come before validation.  For a text that
    parses, an unknown name, a disabled command, and a command that requires
    a project when the context is missing, empty or without a usable
    [project_path], each give [success = False] with the message of that
    case, the parsed name and no output, whatever the handler is. *)
Theorem execute_string_refusals (registry : CommandRegistry)
    (command_string : string) (context : Context) (clock : Z * Z)
    (parsed : ParsedCommand) :
  parse_command_string command_string = Ok (Some parsed) ->
  let refusal msg :=
    execute_string registry command_string context clock =
      Ok (mkResult false VNone
            (Some ("Command '" +:+ Parser.name parsed +:+ msg))
            (Parser.name parsed) (snd clock - fst clock) context) in
  (get_command registry (Parser.name parsed) = None -> refusal "' not found") /\
  (forall r c, get_command registry (Parser.name parsed) = Some (r, c) ->
     (enabled c = false -> refusal "' is disabled") /\
     (enabled c = true -> requires_project (metadata c) = true ->
      lacks_project context = true -> refusal "' requires a project context")).
Proof.
  intros Hp refusal. unfold refusal. split; [|intros r c Hget; split].
  - intros H.
    by rewrite (execute_string_parsed _ _ _ _ _ _ Hp (path_not_found _ _ _ H)).
  - intros He.
    by rewrite (execute_string_parsed _ _ _ _ _ _ Hp (path_disabled _ _ _ r c Hget He)).
  - intros He Hr Hl.
    rewrite (execute_string_parsed _ _ _ _ _ _ Hp (path_no_project _ _ context r c Hget He
               ltac:(by rewrite Hr, Hl))).
    done.
Qed.

(** [/plan] on a registry that only knows [spec]. *)
Lemma execute_string_refusals_witness :
  execute_string Samples.reg_spec "/plan" None (5, 9) =
    Ok (mkResult false VNone (Some "Command 'plan' not found") "plan" 4 None).
Proof.
  destruct (execute_string_refusals Samples.reg_spec "/plan" None (5, 9)
              (mkParsed "plan" [] [] "/plan") eq_refl) as [H _].
  apply H. reflexivity.
Defined.

(** X10: once [disable_command] has succeeded through any key of an
    entry, [is_command_enabled] is false for every key of that entry,
    [execute_command] under such a key raises [ValueError] and
    [execute_parsed_command] refuses with [is disabled]: the handler is not
    consulted. *)
Theorem disabled_command_is_refused (self : CommandRegistry) (name k : string)
    (r : Ref) (c : RegisteredCommand) (parsed : ParsedCommand) (context : Context) :
  get_command self name = Some (r, c) ->
  dict_get k (commands self) = Some r ->
  Parser.name parsed = k ->
  fst (disable_command self name) = true /\
  is_command_enabled (snd (disable_command self name)) k = false /\
  execute_command (snd (disable_command self name)) k (args parsed) (kwargs parsed)
                  context =
    Raise (ValueError ("Command '" +:+ k +:+ "' is disabled")) /\
  execute_parsed_command (snd (disable_command self name)) parsed context =
    Ok (result false VNone (Some ("Command '" +:+ k +:+ "' is disabled")) k).
Proof.
  intros H Hk Hn. unfold disable_command.
  pose proof (toggle_visible false self name k r c H Hk) as Hv.
  split; [by rewrite (toggle_found _ _ _ _ _ H)|]. split; [|split].
  - unfold is_command_enabled. by rewrite Hv.
  - unfold execute_command. by rewrite Hv.
  - subst k. by rewrite (path_disabled _ _ _ r (set_enabled false c)).
Qed.

(** [spec] disabled by name, then called through its alias [s]. *)
Lemma disabled_command_is_refused_witness :
  execute_parsed_command (snd (disable_command Samples.reg_spec "spec"))
                         (mkParsed "s" [] [] "/s") None =
    Ok (result false VNone (Some "Command 's' is disabled") "s").
Proof.
  apply (disabled_command_is_refused Samples.reg_spec "spec" "s" 0%nat
           (mkCommand
              (mkMeta "spec" "" "general" ["s"] [] [] "1.0.0" "spec-kit" []
                      false false 0 0)
              Samples.h_ok "handlers" true)
           (mkParsed "s" [] [] "/s") None); reflexivity.
Defined.

(** ** From registration to the call of the handler *)



(* ===================================================================== *)
(** * Further properties of the parser                                    *)
(* ===================================================================== *)

(** ** Plain words through the tokenizer *)

Lemma whitespace_is_space (c : ascii) :
  Shlex.is_whitespace c = true -> is_space c = true.
Proof.
  unfold Shlex.is_whitespace. rewrite !orb_true_iff.
  intros [[[H|H]|H]|H]; apply Ascii.eqb_eq in H; subst; reflexivity.
Qed.

Lemma plain_char_inert (c : ascii) :
  Shlex.plain_char c = true ->
  is_space c = false /\ Shlex.is_whitespace c = false /\
  Shlex.is_quote c = false /\ Shlex.is_escape c = false.
Proof.
  unfold Shlex.plain_char. rewrite !andb_true_iff, !negb_true_iff.
  intros [[Hs Hq] He]. repeat split; try done.
  destruct (Shlex.is_whitespace c) eqn:E; [|done].
  apply whitespace_is_space in E. congruence.
Qed.

Lemma plain_word_inv (w : string) :
  Shlex.plain_word w = true <-> w <> "" /\ all_chars Shlex.plain_char w = true.
Proof.
  unfold Shlex.plain_word. rewrite andb_true_iff, negb_true_iff, String.eqb_neq.
  tauto.
Qed.

Lemma all_chars_app (p : ascii -> bool) (a b : string) :
  all_chars p (a +:+ b) = all_chars p a && all_chars p b.
Proof.
  induction a as [|c a IH]; [done|].
  rewrite append_cons. simpl. by rewrite IH, andb_assoc.
Qed.

Lemma lex_InWord_plain (c : ascii) (tok : string) (acc : list string) (s : string) :
  Shlex.plain_char c = true ->
  Shlex.lex Shlex.InWord tok acc (String c s) =
  Shlex.lex Shlex.InWord (Shlex.push tok c) acc s.
Proof.
  intros H. destruct (plain_char_inert c H) as (_ & Hw & Hq & He).
  cbn [Shlex.lex]. by rewrite Hw, Hq, He.
Qed.

Lemma lex_Between_plain (c : ascii) (acc : list string) (s : string) :
  Shlex.plain_char c = true ->
  Shlex.lex Shlex.Between "" acc (String c s) =
  Shlex.lex Shlex.InWord (String c "") acc s.
Proof.
  intros H. destruct (plain_char_inert c H) as (_ & Hw & Hq & He).
  cbn [Shlex.lex]. by rewrite Hw, Hq, He.
Qed.

Lemma lex_word (w : string) :
  all_chars Shlex.plain_char w = true ->
  forall tok acc rest,
    Shlex.lex Shlex.InWord tok acc (w +:+ rest) =
    Shlex.lex Shlex.InWord (tok +:+ w) acc rest.
Proof.
  induction w as [|c w IH]; intros H tok acc rest.
  - by rewrite append_empty_r.
  - simpl in H. apply andb_true_iff in H as [Hc Hw].
    rewrite append_cons, lex_InWord_plain, IH by done.
    unfold Shlex.push. by rewrite append_assoc.
Qed.

Lemma lex_start (w : string) (acc : list string) (rest : string) :
  Shlex.plain_word w = true ->
  Shlex.lex Shlex.Between "" acc (w +:+ rest) = Shlex.lex Shlex.InWord w acc rest.
Proof.
  intros H. apply plain_word_inv in H as [Hne H].
  destruct w as [|c w]; [done|]. simpl in H. apply andb_true_iff in H as [Hc Hw].
  by rewrite append_cons, lex_Between_plain, lex_word.
Qed.

(** Plain words joined by single spaces come back as they are. *)
Lemma lex_words (ws : list string) :
  forallb Shlex.plain_word ws = true ->
  forall acc, Shlex.lex Shlex.Between "" acc (join " " ws) = Ok (rev acc ++ ws).
Proof.
  induction ws as [|w ws IH]; intros H acc.
  - simpl. by rewrite app_nil_r.
  - simpl in H. apply andb_true_iff in H as [Hw Hws].
    destruct ws as [|w2 ws].
    + change (join " " [w]) with w.
      replace (Shlex.lex Shlex.Between "" acc w)
        with (Shlex.lex Shlex.Between "" acc (w +:+ ""))
        by (by rewrite append_empty_r).
      by rewrite lex_start.
    + change (join " " (w :: w2 :: ws)) with (w +:+ " " +:+ join " " (w2 :: ws)).
      rewrite lex_start by done.
      change (" " +:+ join " " (w2 :: ws)) with (String " " (join " " (w2 :: ws))).
      cbn [Shlex.lex].
      change (Shlex.is_whitespace " ") with true. cbv iota.
      rewrite IH by done. simpl. by rewrite <- app_assoc.
Qed.

(** ** Plain words through [str.strip] *)

Lemma rstrip_app (a b : string) :
  rstrip b = b -> b <> "" -> rstrip (a +:+ b) = a +:+ b.
Proof.
  intros Hb Hne. induction a as [|c a IH]; [done|].
  rewrite append_cons. simpl. rewrite IH.
  destruct (a +:+ b) as [|x y] eqn:E; [|done].
  destruct a as [|c' a'].
  - change ("" +:+ b) with b in E. congruence.
  - rewrite append_cons in E. discriminate E.
Qed.

Lemma rstrip_plain (w : string) :
  all_chars Shlex.plain_char w = true -> w <> "" -> rstrip w = w.
Proof.
  induction w as [|c w IH]; [done|]. intros H _.
  simpl in H. apply andb_true_iff in H as [Hc Hw].
  destruct (plain_char_inert c Hc) as (Hs & _).
  destruct w as [|c' w]; simpl.
  - by rewrite Hs.
  - change (match rstrip (String c' w) with
            | "" => if is_space c then "" else String c ""
            | r => String c r end = String c (String c' w)).
    by rewrite IH.
Qed.

Lemma rstrip_join (ts : list string) :
  ts <> [] -> forallb Shlex.plain_word ts = true ->
  rstrip (join " " ts) = join " " ts /\ join " " ts <> "".
Proof.
  induction ts as [|w ts IH]; [done|]. intros _ H.
  simpl in H. apply andb_true_iff in H as [Hw Hts].
  apply plain_word_inv in Hw as [Hne Hw].
  destruct ts as [|w2 ts].
  - split; [by apply rstrip_plain | done].
  - destruct IH as [IH1 IH2]; [done | done |].
    change (join " " (w :: w2 :: ts)) with (w +:+ " " +:+ join " " (w2 :: ts)).
    assert (rstrip (" " +:+ join " " (w2 :: ts)) = " " +:+ join " " (w2 :: ts))
      as H1 by by apply rstrip_app.
    split; [by apply rstrip_app|].
    destruct w; [done|]. by rewrite append_cons.
Qed.


Lemma join_cons_prefix (sep p x : string) (l : list string) :
  join sep ((p +:+ x) :: l) = p +:+ join sep (x :: l).
Proof. destruct l; [done|]. simpl. by rewrite append_assoc. Qed.

(** ** Written arguments through the flag loop *)

Lemma startswith_dash (t : string) :
  startswith "-" t = false -> startswith "--" t = false.
Proof.
  intros H. destruct (startswith "--" t) eqn:E; [|done].
  apply prefix_app in E as [post ->].
  assert (startswith "-" ("--" +:+ post) = true) as H'; [|congruence].
  apply prefix_app. by exists ("-" +:+ post).
Qed.

Lemma has_char_app (c : ascii) (a b : string) :
  has_char c (a +:+ b) = has_char c a || has_char c b.
Proof.
  induction a as [|x a IH]; [done|].
  rewrite append_cons. simpl. by rewrite IH, orb_assoc.
Qed.

Lemma split_once_app (c : ascii) (a b : string) :
  has_char c a = false -> split_once c (a +:+ String c b) = (a, b).
Proof.
  induction a as [|x a IH]; intros H.
  - change ("" +:+ String c b) with (String c b). simpl.
    by rewrite Ascii.eqb_refl.
  - simpl in H. apply orb_false_iff in H as [Hx Ha].
    rewrite append_cons. simpl. by rewrite Hx, IH.
Qed.

Lemma render_plain (w : Written) :
  writable w = true -> Shlex.plain_word (render w) = true.
Proof.
  destruct w as [word|key value]; simpl.
  - by intros [? _]%andb_true_iff.
  - intros [[Hk _]%andb_true_iff Hv]%andb_true_iff.
    apply plain_word_inv in Hk as [_ Hk]. apply plain_word_inv. split.
    + by rewrite !append_cons.
    + rewrite !all_chars_app, Hk, Hv. reflexivity.
Qed.

(** The loop on a written argument list, from any state of the two
    accumulators. *)
Lemma parse_tokens_rendered (ws : list Written) :
  forallb writable ws = true ->
  forall a kw,
    parse_tokens (map render ws) a kw =
    (a ++ positionals ws,
     fold_left (fun kw w => match w with
                            | Positional _ => kw
                            | Flag key value => dict_set key (_parse_value value) kw
                            end) ws kw).
Proof.
  induction ws as [|w ws IH]; intros H a kw.
  - simpl. by rewrite app_nil_r.
  - simpl in H. apply andb_true_iff in H as [Hw Hws].
    destruct w as [word|key value].
    + simpl in Hw. apply andb_true_iff in Hw as [_ Hd].
      apply negb_true_iff in Hd.
      cbn [map render parse_tokens].
      rewrite (startswith_dash _ Hd), Hd, IH by done.
      cbn [fold_left]. by rewrite <- app_assoc.
    + simpl in Hw. apply andb_true_iff in Hw as [[_ He]%andb_true_iff _].
      apply negb_true_iff in He.
      cbn [map render parse_tokens].
      assert (startswith "--" ("--" +:+ key +:+ "=" +:+ value) = true) as ->.
      { apply prefix_app. by eexists. }
      change (drop_chars 2 ("--" +:+ key +:+ "=" +:+ value))
        with (key +:+ String "=" value).
      assert (has_char "=" (key +:+ String "=" value) = true) as ->.
      { rewrite has_char_app. simpl. by rewrite orb_true_r. }
      rewrite split_once_app by done. by rewrite IH.
Qed.

(** A text that strips to a written command line. *)
Lemma parse_written (s name : string) (ws : list Written) :
  Shlex.plain_word name = true ->
  forallb writable ws = true ->
  strip s = join " " (("/" +:+ name) :: map render ws) ->
  parse_command_string s =
    Ok (Some (mkParsed name (positionals ws) (keywords ws) (strip s))).
Proof.
  intros Hn Hws Hs.
  assert (forallb Shlex.plain_word (name :: map render ws) = true) as Hall.
  { simpl. rewrite Hn. simpl. rewrite forallb_forall. intros t Ht.
    apply in_map_iff in Ht as (w & <- & Hw). apply render_plain.
    rewrite forallb_forall in Hws. auto. }
  assert (strip s = String "/" (join " " (name :: map render ws))) as Hline.
  { rewrite Hs. by rewrite join_cons_prefix. }
  unfold parse_command_string.
  assert (String.eqb s "" = false) as ->.
  { apply String.eqb_neq. intros ->. discriminate Hline. }
  assert (String.eqb (strip s) "" = false) as -> by (by rewrite Hline).
  assert (startswith "/" (strip s) = true) as ->.
  { rewrite Hline. apply prefix_app. by eexists. }
  simpl orb. cbv iota. unfold _parse_opencode_command.
  rewrite Hline at 1. cbn [drop_chars].
  unfold Shlex.split. rewrite (lex_words _ Hall). simpl bind.
  by rewrite (parse_tokens_rendered _ Hws).
Qed.

(** A written command line is its own [strip]. *)
Lemma strip_written (name : string) (ws : list Written) :
  Shlex.plain_word name = true ->
  forallb writable ws = true ->
  strip (join " " (("/" +:+ name) :: map render ws)) =
  join " " (("/" +:+ name) :: map render ws).
Proof.
  intros Hn Hws.
  assert (forallb Shlex.plain_word (("/" +:+ name) :: map render ws) = true) as Hall.
  { cbn [forallb]. apply andb_true_iff. split.
    - apply plain_word_inv in Hn as [_ Hn]. apply plain_word_inv.
      split; [by rewrite append_cons|]. rewrite all_chars_app, Hn. reflexivity.
    - rewrite forallb_forall. intros t Ht.
      apply in_map_iff in Ht as (w & <- & Hw). apply render_plain.
      rewrite forallb_forall in Hws. auto. }
  set (line := join " " (("/" +:+ name) :: map render ws)).
  assert (line = String "/" (join " " (name :: map render ws))) as Hline.
  { unfold line. by rewrite join_cons_prefix. }
  unfold strip. rewrite Hline at 1. cbn [lstrip].
  change (is_space "/") with false. cbv iota. rewrite <- Hline.
  by apply rstrip_join.
Qed.

(** X12: a command line written as [/name], plain positional words that
    do not start with a dash, and flags [--key=value], joined by single
    spaces, parses back to that name, the coerced positional words in
    order, and one keyword per key with the coerced value of its last
    flag. *)
Theorem written_command_line_parses_back (name : string) (ws : list Written) :
  Shlex.plain_word name = true ->
  forallb writable ws = true ->
  parse_command_string (join " " (("/" +:+ name) :: map render ws)) =
    Ok (Some (mkParsed name (positionals ws) (keywords ws)
                       (join " " (("/" +:+ name) :: map render ws)))).
Proof.
  intros Hn Hws.
  rewrite (parse_written _ name ws Hn Hws (strip_written name ws Hn Hws)).
  by rewrite strip_written.
Qed.

(** [/spec login --template=default --n=3]. *)
Lemma written_command_line_parses_back_witness :
  parse_command_string "/spec login --template=default --n=3" =
    Ok (Some (mkParsed "spec" [VStr "login"]
                [("template", VStr "default"); ("n", VInt 3)]
                "/spec login --template=default --n=3")).
Proof.
  apply (written_command_line_parses_back "spec"
           [Positional "login"; Flag "template" "default"; Flag "n" "3"]);
    reflexivity.
Defined.

(** ** Where parsed values come from *)

Lemma parse_value_scalar (s : string) : scalar (_parse_value s) = true.
Proof.
  unfold _parse_value. destruct (is_bool_word s); [done|].
  destruct (has_char "." s).
  - destruct (py_float s); simpl; [done|]. by destruct (is_none_word s).
  - destruct (py_int s); simpl; [done|]. by destruct (is_none_word s).
Qed.

(** Every positional value is the coercion of a token without a leading
    dash; every keyword value is [True] or the coercion of some text. *)
Lemma parse_tokens_origin (n : nat) :
  forall parts a kw, (length parts <= n)%nat ->
    (forall v, In v (fst (parse_tokens parts a kw)) ->
       In v a \/
       exists t, In t parts /\ startswith "-" t = false /\ v = _parse_value t) /\
    (forall v, In v (dict_values (snd (parse_tokens parts a kw))) ->
       In v (dict_values kw) \/ v = VBool true \/ exists s, v = _parse_value s).
Proof.
  induction n as [|n IH]; intros parts a kw Hlen.
  { destruct parts; [|simpl in Hlen; lia]. simpl. split; auto. }
  destruct parts as [|part rest]; [simpl; split; auto|].
  simpl in Hlen.
  assert (forall a' kw' rest',
            (length rest' <= n)%nat ->
            (forall t, In t rest' -> In t (part :: rest)) ->
            (forall v, In v a' -> In v a \/
               (startswith "-" part = false /\ v = _parse_value part)) ->
            (forall v, In v (dict_values kw') ->
               In v (dict_values kw) \/ v = VBool true \/ exists s, v = _parse_value s) ->
            (forall v, In v (fst (parse_tokens rest' a' kw')) ->
               In v a \/
               exists t, In t (part :: rest) /\ startswith "-" t = false /\
                         v = _parse_value t) /\
            (forall v, In v (dict_values (snd (parse_tokens rest' a' kw'))) ->
               In v (dict_values kw) \/ v = VBool true \/
               exists s, v = _parse_value s)) as Hrec.
  { intros a' kw' rest' Hl Hsub Ha Hk.
    destruct (IH rest' a' kw' Hl) as [H1 H2]. split.
    - intros v Hv. destruct (H1 v Hv) as [Hin|(t & Ht & Hd & ->)].
      + destruct (Ha v Hin) as [?|[Hd ->]]; [by left|].
        right. exists part. split; [by left | done].
      + right. exists t. auto.
    - intros v Hv. destruct (H2 v Hv) as [Hin|?]; auto. }
  assert (forall key val,
            val = VBool true \/ (exists s, val = _parse_value s) ->
            forall v, In v (dict_values (dict_set key val kw)) ->
              In v (dict_values kw) \/ v = VBool true \/
              exists s, v = _parse_value s) as Hset.
  { intros key val Hval v Hv. apply dict_set_values_in in Hv as [->|?]; tauto. }
  cbn [parse_tokens].
  destruct (startswith "--" part) eqn:Hdd.
  - destruct (has_char "=" (drop_chars 2 part)).
    + destruct (split_once "=" (drop_chars 2 part)) as [key value].
      apply Hrec; [lia | by right | by left | apply Hset; eauto].
    + destruct rest as [|next rest'].
      * simpl. split; [by left | apply Hset; auto].
      * apply Hrec; [simpl in Hlen; lia | by right; right | by left
                    | apply Hset; eauto].
  - destruct (startswith "-" part) eqn:Hd.
    + destruct rest as [|next rest'].
      * simpl. split; [by left | apply Hset; auto].
      * destruct (negb (startswith "-" next)).
        -- apply Hrec; [simpl in Hlen; lia | by right; right | by left
                       | apply Hset; eauto].
        -- apply Hrec; [lia | by right | by left | apply Hset; auto].
    + apply Hrec; [lia | by right | | auto].
      intros v Hv. apply in_app_or in Hv as [?|[<-|[]]]; auto.
Qed.

(** X13: in the prefixed grammar a token that starts with a dash never
    becomes a positional argument: every positional value of the result is
    the coercion of a token that does not start with ["-"] (so [-5] is read
    as a flag named [5]), whereas the plain grammar coerces every token
    after the name, dashes or not, and produces no keyword. *)
Theorem dash_tokens_are_never_positional (command_string name : string)
    (tokens : list string) :
  (Shlex.split (drop_chars 1 command_string) = Ok (name :: tokens) ->
   exists parsed,
     _parse_opencode_command command_string = Ok (Some parsed) /\
     Parser.name parsed = name /\
     forall v, In v (args parsed) ->
       exists t, In t tokens /\ startswith "-" t = false /\ v = _parse_value t) /\
  (Shlex.split command_string = Ok (name :: tokens) ->
   _parse_simple_command command_string =
     Ok (Some (mkParsed name (map _parse_value tokens) [] command_string))).
Proof.
  split; intros H.
  - unfold _parse_opencode_command. rewrite H. simpl.
    destruct (parse_tokens tokens [] []) as [a kw] eqn:E.
    eexists. split; [reflexivity|]. split; [done|]. simpl.
    intros v Hv.
    destruct (parse_tokens_origin (length tokens) tokens [] [] (le_n _)) as [H1 _].
    rewrite E in H1. by destruct (H1 v Hv) as [[]|?].
  - unfold _parse_simple_command. by rewrite H.
Qed.

(** [/add -5 7] against [add -5 7]. *)
Lemma dash_tokens_are_never_positional_witness :
  _parse_opencode_command "/add -5 7" =
    Ok (Some (mkParsed "add" [] [("5", VInt 7)] "/add -5 7")) /\
  _parse_simple_command "add -5 7" =
    Ok (Some (mkParsed "add" [VInt (-5); VInt 7] [] "add -5 7")).
Proof.
  destruct (dash_tokens_are_never_positional "/add -5 7" "add" ["-5"; "7"])
    as [H1 _].
  destruct (dash_tokens_are_never_positional "add -5 7" "add" ["-5"; "7"])
    as [_ H2].
  split; [|by apply H2].
  destruct (H1 eq_refl) as (parsed & Hp & _). reflexivity.
Defined.

Lemma parsed_values_scalar (command_string : string) (parsed : ParsedCommand) :
  parse_command_string command_string = Ok (Some parsed) ->
  (forall v, In v (args parsed) -> scalar v = true) /\
  (forall v, In v (dict_values (kwargs parsed)) -> scalar v = true).
Proof.
  unfold parse_command_string.
  destruct (String.eqb command_string "" || String.eqb (strip command_string) "");
    [done|].
  destruct (startswith "/" (strip command_string)).
  - unfold _parse_opencode_command.
    destruct (Shlex.split _) as [[|name tokens]|e]; simpl; try done.
    destruct (parse_tokens tokens [] []) as [a kw] eqn:E.
    intros [= <-]. simpl.
    destruct (parse_tokens_origin (length tokens) tokens [] [] (le_n _)) as [H1 H2].
    rewrite E in H1, H2. simpl in H1, H2. split.
    + intros v Hv. destruct (H1 v Hv) as [[]|(t & _ & _ & ->)].
      apply parse_value_scalar.
    + intros v Hv. destruct (H2 v Hv) as [[]|[->|[s ->]]]; [done|].
      apply parse_value_scalar.
  - unfold _parse_simple_command.
    destruct (Shlex.split _) as [[|name tokens]|e]; simpl; try done.
    intros [= <-]. simpl. split; [|done].
    intros v Hv. apply in_map_iff in Hv as (t & <- & _). apply parse_value_scalar.
Qed.

(** X14: everything the parser produces is a boolean, an integer, a
    float, [None] or a string.  So a keyword that the schema declares with
    the type [list] or [dict] cannot be supplied from text: whenever a
    parsed invocation supplies it, validation fails. *)
Theorem text_cannot_supply_list_or_dict (command_string : string)
    (parsed : ParsedCommand) (command : RegisteredCommand) :
  parse_command_string command_string = Ok (Some parsed) ->
  (forall v, In v (args parsed) \/ In v (dict_values (kwargs parsed)) ->
             scalar v = true) /\
  (forall k v info t,
     In (k, v) (kwargs parsed) ->
     dict_get k (parameters (metadata command)) = Some info ->
     p_type info = Some t ->
     t = "list" \/ t = "dict" ->
     valid (validate_command_arguments parsed command) = false).
Proof.
  intros Hp. destruct (parsed_values_scalar _ _ Hp) as [Ha Hk]. split.
  - intros v [?|?]; auto.
  - intros k v info t Hin Hget Ht Hld.
    assert (scalar v = true) as Hs.
    { apply Hk. change v with (snd (k, v)). by apply in_map. }
    apply (validate_reports parsed command
             ("Parameter '" +:+ k +:+ "' should be of type " +:+ t)).
    apply in_or_app. right. apply list_elem_of_In, list_elem_of_omap.
    exists (k, v). split; [by apply list_elem_of_In|].
    rewrite Hget, Ht. simpl.
    assert (_validate_type v t = false) as ->; [|done].
    destruct Hld as [-> | ->]; by destruct v.
Qed.

(** [/echo --msg=[1,2]] against a schema that wants a list. *)
Lemma text_cannot_supply_list_or_dict_witness :
  let command :=
    mkCommand (mkMeta "echo" "" "general" []
                 [("msg", mkParam (Some "list") false None)] [] "1.0.0"
                 "spec-kit" [] false false 0 0)
              Samples.h_ok "handlers" true in
  valid (validate_command_arguments
           (mkParsed "echo" [] [("msg", VStr "[1,2]")] "/echo --msg=[1,2]")
           command) = false.
Proof.
  intros command.
  destruct (text_cannot_supply_list_or_dict "/echo --msg=[1,2]"
              (mkParsed "echo" [] [("msg", VStr "[1,2]")] "/echo --msg=[1,2]")
              command eq_refl) as [_ H].
  apply (H "msg" (VStr "[1,2]") (mkParam (Some "list") false None) "list");
    [simpl; auto | reflexivity | reflexivity | by left].
Defined.

(* ===================================================================== *)
(** * Callers: integration, suggestions, discovery                        *)
(* ===================================================================== *)

(** ** The command line the integration builds *)





(** ** Suggestions *)

(** X16: every suggestion of [get_command_suggestions] starts with the
    partial text and is the primary name of an entry that is neither hidden
    nor disabled and that [get_command] finds under that name, and every
    such name is suggested; an alias is never suggested as such, and the
    empty partial text gives no suggestion at all. *)
Theorem suggestions_are_visible_primary_names (registry : CommandRegistry)
    (partial_command x : string) :
  wf registry ->
  In x (get_command_suggestions registry partial_command) <->
  partial_command <> "" /\
  startswith partial_command x = true /\
  exists r c, get_command registry x = Some (r, c) /\
              name (metadata c) = x /\
              hidden (metadata c) = false /\ enabled c = true.
Proof.
  intros Hwf. unfold get_command_suggestions.
  destruct (String.eqb_spec partial_command "") as [->|Hne].
  { split; [done | by intros [? _]]. }
  rewrite filter_In, in_map_iff. split.
  - intros [(c & <- & Hin) Hs].
    apply (In_list_commands _ _ _ _ _ Hwf) in Hin as ([r Hr] & _ & Hh & He).
    split; [done|]. split; [done|]. exists r, c. repeat split; [done|..].
    + destruct (hidden (metadata c)); [by specialize (Hh eq_refl) | done].
    + destruct (enabled c); [done | by specialize (He eq_refl)].
  - intros (_ & Hs & r & c & Hr & Hn & Hh & He). split; [|done].
    exists c. split; [done|]. apply (In_list_commands _ _ _ _ _ Hwf).
    rewrite Hn. split; [eauto|]. split; [done|]. split; congruence.
Qed.

(** [sp] suggests [spec]; the alias [s] is not suggested for [s]. *)
Lemma suggestions_are_visible_primary_names_witness :
  In "spec" (get_command_suggestions Samples.reg_spec "sp") /\
  ~ In "s" (get_command_suggestions Samples.reg_spec "s").
Proof.
  pose proof (suggestions_are_visible_primary_names Samples.reg_spec "sp" "spec"
                (wf_register_command _ _ _ _ _ _ _ _ _ _ _ _ _ wf_empty)) as H1.
  pose proof (suggestions_are_visible_primary_names Samples.reg_spec "s" "s"
                (wf_register_command _ _ _ _ _ _ _ _ _ _ _ _ _ wf_empty)) as H2.
  split.
  - apply H1. split; [done|]. split; [reflexivity|].
    eexists _, _. split; [reflexivity|]. by repeat split.
  - intros Hin. apply H2 in Hin as (_ & _ & r & c & Hr & Hn & _).
    injection Hr as _ <-. discriminate Hn.
Defined.

(** ** Discovery *)

Lemma replace_char_gone (a b : ascii) (s : string) :
  a <> b -> has_char a (replace_char a b s) = false.
Proof.
  intros Hne. induction s as [|c s IH]; [done|]. simpl. rewrite IH.
  destruct (Ascii.eqb_spec c a) as [->|Hc].
  - rewrite orb_false_r. by apply Ascii.eqb_neq.
  - rewrite orb_false_r. apply Ascii.eqb_neq. congruence.
Qed.

(** X17: a command name derived from a function name (no explicit
    [_command_name]) contains no underscore, and the prefixes [cmd_] and
    [command_] are interchangeable: [cmd_x] and [command_x] both give [x]
    with each underscore turned into a dash. *)
Theorem derived_command_name_is_kebab_case (func_name : string) :
  has_char "_" (Discovery._extract_command_name func_name None) = false /\
  Discovery._extract_command_name ("cmd_" +:+ func_name) None =
    replace_char "_" "-" func_name /\
  Discovery._extract_command_name ("command_" +:+ func_name) None =
    replace_char "_" "-" func_name.
Proof.
  split; [|split].
  - unfold Discovery._extract_command_name. by apply replace_char_gone.
  - unfold Discovery._extract_command_name.
    assert (startswith "cmd_" ("cmd_" +:+ func_name) = true) as ->; [|done].
    apply prefix_app. by eexists.
  - unfold Discovery._extract_command_name.
    assert (startswith "cmd_" ("command_" +:+ func_name) = false) as ->.
    { destruct (startswith "cmd_" ("command_" +:+ func_name)) eqn:E; [|done].
      apply prefix_app in E as [post E]. discriminate E. }
    assert (startswith "command_" ("command_" +:+ func_name) = true) as ->; [|done].
    apply prefix_app. by eexists.
Qed.

Section Other.
Variables (self : CommandRegistry) (name : string) (handler : Handler)
  (description category : string) (aliases : list string)
  (parameters : list (string * ParamInfo)) (examples tags : list string)
  (requires_project hidden : bool) (version : string) (now : Z * Z).

(** A key other than the name that is already there keeps its entry. *)
Lemma register_command_other_key (k : string) :
  wf self -> k <> name -> dict_has k (commands self) = true ->
  get_command (register_command self name handler description category aliases
                 parameters examples tags requires_project hidden version now) k
    = get_command self k /\
  dict_has k (commands (register_command self name handler description category
                 aliases parameters examples tags requires_project hidden
                 version now)) = true.
Proof.
  intros Hwf Hne Hk. apply dict_has_true in Hk as [x Hx].
  assert (dict_get k (commands (register_command self name handler description
            category aliases parameters examples tags requires_project hidden
            version now)) = Some x) as Hx'.
  { rewrite register_command_commands. apply register_aliases_old.
    by rewrite dict_get_set_ne. }
  split.
  - apply get_command_kept; [done|]. by rewrite Hx, Hx'.
  - apply dict_has_true. by rewrite Hx'.
Qed.

End Other.

(** Each turn of the loop is one [register_command] call under the
    command's name, with the command's handler. *)
Lemma register_discovered_is_register (registry : CommandRegistry)
    (command : Discovery.DiscoveredCommand) (now : Z * Z) :
  exists d c a p e t rp h,
    Discovery.register_discovered registry command now =
    register_command registry (Discovery.name command) (Discovery.handler command)
                     d c a p e t rp h "1.0.0" now.
Proof.
  unfold Discovery.register_discovered.
  destruct (Discovery.metadata command) as [m|]; by do 8 eexists.
Qed.

Lemma register_discovered_resolves (registry : CommandRegistry)
    (command : Discovery.DiscoveredCommand) (now : Z * Z) :
  exists c,
    get_command (Discovery.register_discovered registry command now)
                (Discovery.name command) = Some (length (store registry), c) /\
    handler c = Discovery.handler command /\
    name (metadata c) = Discovery.name command /\
    enabled c = true.
Proof.
  destruct (register_discovered_is_register registry command now)
    as (d & c & a & p & e & t & rp & h & ->).
  eexists. split; [|split; [|split]].
  - apply (get_command_registered registry (Discovery.name command)
             (Discovery.handler command) d c a p e t rp h "1.0.0" now).
    apply name_bound_to_new.
  - reflexivity.
  - reflexivity.
  - reflexivity.
Qed.

Lemma register_discovered_other_key (registry : CommandRegistry)
    (command : Discovery.DiscoveredCommand) (now : Z * Z) (k : string) :
  wf registry -> k <> Discovery.name command ->
  dict_has k (commands registry) = true ->
  get_command (Discovery.register_discovered registry command now) k =
    get_command registry k /\
  dict_has k (commands (Discovery.register_discovered registry command now)) = true.
Proof.
  destruct (register_discovered_is_register registry command now)
    as (d & c & a & p & e & t & rp & h & ->).
  apply register_command_other_key.
Qed.

Lemma wf_register_discovered (registry : CommandRegistry)
    (command : Discovery.DiscoveredCommand) (now : Z * Z) :
  wf registry -> wf (Discovery.register_discovered registry command now).
Proof.
  destruct (register_discovered_is_register registry command now)
    as (d & c & a & p & e & t & rp & h & ->).
  apply wf_register_command.
Qed.

(** The loop of [register_discovered_commands] from any registry and count. *)
Lemma register_discovered_loop (discovered : list (Discovery.DiscoveredCommand * (Z * Z))) :
  forall registry n,
    wf registry ->
    List.NoDup (map (fun cn => Discovery.name (fst cn)) discovered) ->
    let res := fold_left
                 (fun (acc : CommandRegistry * Z) cn =>
                    let (registry, registered_count) := acc in
                    (Discovery.register_discovered registry (fst cn) (snd cn),
                     registered_count + 1))
                 discovered (registry, n) in
    snd res = n + Z.of_nat (length discovered) /\
    wf (fst res) /\
    (forall k, ~ In k (map (fun cn => Discovery.name (fst cn)) discovered) ->
               dict_has k (commands registry) = true ->
               get_command (fst res) k = get_command registry k) /\
    (forall command now, In (command, now) discovered ->
       exists r c,
         get_command (fst res) (Discovery.name command) = Some (r, c) /\
         handler c = Discovery.handler command /\
         name (metadata c) = Discovery.name command /\
         enabled c = true).
Proof.
  induction discovered as [|[cmd t] l IH]; intros registry n Hwf Hnd.
  - simpl. split; [lia|]. split; [done|]. split; [done|]. by intros ? ? [].
  - simpl in Hnd. inversion Hnd as [|? ? Hout Hnd']; subst.
    cbn [fold_left fst snd].
    destruct (IH (Discovery.register_discovered registry cmd t) (n + 1)
                (wf_register_discovered _ _ _ Hwf) Hnd')
      as (Hcount & Hwf' & Hkeep & Hres).
    split; [rewrite Hcount; simpl length; lia|]. split; [done|]. split.
    + intros k Hk Hhas. simpl in Hk.
      destruct (register_discovered_other_key registry cmd t k Hwf) as [Hg Hh];
        [intros ->; tauto | done |].
      rewrite Hkeep; [done | tauto | done].
    + intros command now [[= <- <-]|Hin]; [|by apply (Hres command now)].
      destruct (register_discovered_resolves registry cmd t) as (c & Hc & Hrest).
      exists (length (store registry)), c. split; [|done].
      rewrite Hkeep; [done | done |].
      apply dict_has_true. apply get_command_Some in Hc as [-> _]. by eexists.
Qed.

(** X18: [register_discovered_commands] on discovered commands with
    pairwise distinct names counts every one of them and leaves each name
    resolving to an enabled entry with that command's own handler, whatever
    aliases the commands declare and in whatever order they come; keys that
    were there before and are not among the new names stay as they were. *)
Theorem discovered_commands_all_resolve (registry : CommandRegistry)
    (discovered : list (Discovery.DiscoveredCommand * (Z * Z))) :
  wf registry ->
  List.NoDup (map (fun cn => Discovery.name (fst cn)) discovered) ->
  snd (Discovery.register_discovered_commands registry discovered) =
    Z.of_nat (length discovered) /\
  (forall command now, In (command, now) discovered ->
     exists r c,
       get_command (fst (Discovery.register_discovered_commands registry discovered))
                   (Discovery.name command) = Some (r, c) /\
       handler c = Discovery.handler command /\
       name (metadata c) = Discovery.name command /\
       enabled c = true) /\
  (forall k, ~ In k (map (fun cn => Discovery.name (fst cn)) discovered) ->
             dict_has k (commands registry) = true ->
             get_command (fst (Discovery.register_discovered_commands registry discovered)) k
               = get_command registry k).
Proof.
  intros Hwf Hnd.
  destruct (register_discovered_loop discovered registry 0 Hwf Hnd)
    as (Hc & _ & Hk & Hr).
  unfold Discovery.register_discovered_commands. split; [by rewrite Hc|].
  split; [exact Hr | exact Hk].
Qed.

(** [spec], which claims the alias [plan], discovered before [plan]. *)
Lemma discovered_commands_all_resolve_witness :
  let spec := Discovery.mkDiscovered "spec" Samples.h_ok "m"
                (Some (mkMeta "spec" "" "general" ["plan"] [] [] "1.0.0"
                              "spec-kit" [] false false 0 0)) in
  let plan := Discovery.mkDiscovered "plan" Samples.h_boom "m" None in
  let res := Discovery.register_discovered_commands empty [(spec, (0, 0)); (plan, (1, 1))] in
  snd res = 2 /\
  exists r c, get_command (fst res) "plan" = Some (r, c) /\
              h_id (handler c) = 1%nat.
Proof.
  intros spec plan res.
  destruct (discovered_commands_all_resolve empty [(spec, (0, 0)); (plan, (1, 1))]
              wf_empty) as (Hc & Hr & _).
  - simpl. repeat constructor; simpl; intuition discriminate.
  - split; [exact Hc|].
    destruct (Hr plan (1, 1)) as (r & c & Hg & Hh & _); [simpl; auto|].
    exists r, c. split; [exact Hg|]. by rewrite Hh.
Defined.

(* ===================================================================== *)
(** * Further properties of the agent registry                            *)
(* ===================================================================== *)







(* ===================================================================== *)
(** * Text that does not parse, and the category index                    *)
(* ===================================================================== *)

(** The tokenizer raises with one of two messages only. *)
Lemma lex_errors (s : string) :
  forall st tok acc e,
    Shlex.lex st tok acc s = Raise e ->
    e = ValueError "No closing quotation" \/ e = ValueError "No escaped character".
Proof.
  induction s as [|c s IH]; intros st tok acc e H.
  - destruct st; simpl in H; try discriminate H; injection H as <-; auto.
  - cbn [Shlex.lex] in H. destruct st as [| |q|[q|]].
    + destruct (Shlex.is_whitespace c); [by eapply IH|].
      destruct (Shlex.is_escape c); [by eapply IH|].
      destruct (Shlex.is_quote c); by eapply IH.
    + destruct (Shlex.is_whitespace c); [by eapply IH|].
      destruct (Shlex.is_quote c); [by eapply IH|].
      destruct (Shlex.is_escape c); by eapply IH.
    + destruct (Ascii.eqb c q); [by eapply IH|].
      destruct (Shlex.is_escape c && Ascii.eqb q "034"); by eapply IH.
    + destruct (negb (Shlex.is_escape c) && negb (Ascii.eqb c q)); by eapply IH.
    + by eapply IH.
Qed.

Lemma rstrip_spaces (s : string) : all_chars is_space s = true -> rstrip s = "".
Proof.
  induction s as [|c s IH]; [done|]. simpl.
  intros [Hc Hs]%andb_true_iff. by rewrite IH, Hc.
Qed.

Lemma strip_spaces (s : string) : all_chars is_space s = true -> strip s = "".
Proof.
  intros H. unfold strip. apply rstrip_spaces.
  induction s as [|c s IH]; [done|]. simpl in *.
  apply andb_true_iff in H as [Hc Hs]. rewrite Hc. auto.
Qed.

(** X21: what [execute_string] answers to text it cannot parse.  Text
    made of white space only (the empty text included) gives
    [Failed to parse command], and this one result carries no context even
    when one was passed.  A tokenizer error gives [success = False] with the
    tokenizer's message, and its message is always [No closing quotation] or
    [No escaped character]; here the context is passed on.  In both cases
    the command name is empty. *)
Theorem unparsable_text_results (registry : CommandRegistry)
    (command_string : string) (context : Context) (clock : Z * Z) :
  (all_chars is_space command_string = true ->
   execute_string registry command_string context clock =
     Ok (mkResult false VNone (Some "Failed to parse command") ""
                  (snd clock - fst clock) None)) /\
  (forall e, parse_command_string command_string = Raise e ->
     (exn_msg e = "No closing quotation" \/ exn_msg e = "No escaped character") /\
     execute_string registry command_string context clock =
       Ok (mkResult false VNone (Some (exn_msg e)) ""
                    (snd clock - fst clock) context)).
Proof.
  split.
  - intros H. unfold execute_string, parse_command_string.
    by rewrite (strip_spaces _ H), orb_true_r.
  - intros e He. split.
    + unfold parse_command_string in He.
      destruct (_ || _); [done|].
      assert (forall s, Shlex.split s = Raise e ->
                exn_msg e = "No closing quotation" \/
                exn_msg e = "No escaped character") as Hlex.
      { intros s Hs. apply lex_errors in Hs as [-> | ->]; auto. }
      destruct (startswith "/" (strip command_string)).
      * unfold _parse_opencode_command in He.
        destruct (Shlex.split _) as [[|n ts]|e'] eqn:Hs; simpl in He;
          try discriminate He.
        -- by destruct (parse_tokens ts [] []).
        -- injection He as ->. by eapply Hlex.
      * unfold _parse_simple_command in He.
        destruct (Shlex.split _) as [[|n ts]|e'] eqn:Hs; simpl in He;
          try discriminate He.
        injection He as ->. by eapply Hlex.
    + unfold execute_string. by rewrite He.
Qed.

(** A text of blanks, and a text with an open quotation. *)
Lemma unparsable_text_results_witness :
  execute_string Samples.reg_spec "   " (Some [("user_id", VStr "u")]) (5, 9) =
    Ok (mkResult false VNone (Some "Failed to parse command") "" 4 None) /\
  execute_string Samples.reg_spec "/spec 'add login" (Some [("user_id", VStr "u")]) (5, 9) =
    Ok (mkResult false VNone (Some "No closing quotation") "" 4
                 (Some [("user_id", VStr "u")])).
Proof.
  destruct (unparsable_text_results Samples.reg_spec "   "
              (Some [("user_id", VStr "u")]) (5, 9)) as [H1 _].
  destruct (unparsable_text_results Samples.reg_spec "/spec 'add login"
              (Some [("user_id", VStr "u")]) (5, 9)) as [_ H2].
  split; [by apply H1|].
  by destruct (H2 (ValueError "No closing quotation") eq_refl) as [_ ->].
Defined.

Lemma list_remove_gone (x : string) (l : list string) :
  List.NoDup l -> ~ In x (list_remove x l).
Proof.
  induction l as [|y l IH]; simpl; [tauto|].
  intros H. inversion H as [|? ? Hout Hnd]; subst.
  destruct (String.eqb_spec x y) as [->|Hne]; [done|].
  intros [?|?]; [congruence | by apply IH].
Qed.

(** X22: the category index follows registration and unregistration by
    name.  After [register_command] the name is listed under the category
    it was registered with; after a successful [unregister_command] of a
    name (in a registry whose category lists have no duplicates, as every
    reachable one has) the name is no longer listed under the category of
    the entry it named. *)
Theorem category_index_follows_name (self : CommandRegistry) (name : string) :
  (forall handler description category aliases parameters examples tags
          requires_project hidden version now,
     In name (default [] (dict_get category
               (categories (register_command self name handler description
                  category aliases parameters examples tags requires_project
                  hidden version now)))) /\
     In category (list_categories (register_command self name handler
                  description category aliases parameters examples tags
                  requires_project hidden version now))) /\
  (forall r E,
     categories_wf self ->
     get_command self name = Some (r, E) ->
     ~ In name (default [] (dict_get (category (metadata E))
                  (categories (snd (unregister_command self name)))))).
Proof.
  split.
  - intros handler description category aliases parameters examples tags
           requires_project hidden version now.
    unfold list_categories, register_command. simpl.
    set (cats := if dict_has category (categories self) then categories self
                 else dict_set category [] (categories self)).
    assert (is_Some (dict_get category cats)) as [ns Hns].
    { unfold cats. destruct (dict_has category (categories self)) eqn:E.
      - by apply dict_has_true.
      - rewrite dict_get_set_eq. by eexists. }
    rewrite Hns. simpl.
    destruct (existsb (String.eqb name) ns) eqn:Hex.
    + rewrite Hns. simpl. split; [by apply existsb_eqb_In|].
      destruct (in_dec string_dec category (dict_keys cats)) as [?|Hout]; [done|].
      apply dict_get_None in Hout. congruence.
    + rewrite dict_get_set_eq. simpl. split; [apply in_or_app; right; by left|].
      destruct (in_dec string_dec category (dict_keys (dict_set category (ns ++ [name]) cats)))
        as [?|Hout]; [done|].
      apply dict_get_None in Hout. rewrite dict_get_set_eq in Hout. congruence.
  - intros r E [_ Hl] Hget. apply get_command_Some in Hget as [Hk Hr].
    unfold unregister_command. rewrite Hk, Hr. simpl.
    destruct (dict_get (category (metadata E)) (categories self)) as [ns|] eqn:G.
    + destruct (existsb (String.eqb name) ns) eqn:Hex.
      * rewrite dict_get_set_eq. simpl. apply list_remove_gone. by eapply Hl.
      * rewrite G. simpl. intros Hin. apply existsb_eqb_In in Hin. congruence.
    + rewrite G. simpl. tauto.
Qed.

(** [spec] is listed under [general], and is not once it is unregistered. *)
Lemma category_index_follows_name_witness :
  categories Samples.reg_spec = [("general", ["spec"])] /\
  ~ In "spec" (default [] (dict_get "general"
                 (categories (snd (unregister_command Samples.reg_spec "spec"))))).
Proof.
  destruct (category_index_follows_name Samples.reg_spec "spec") as [_ H].
  split; [reflexivity|].
  apply (H 0%nat (mkCommand
                    (mkMeta "spec" "" "general" ["s"] [] [] "1.0.0" "spec-kit" []
                            false false 0 0)
                    Samples.h_ok "handlers" true)).
  - split; [repeat constructor; simpl; tauto|].
    intros cat names. simpl.
    destruct (String.eqb cat "general"); [|done].
    intros [= <-]. repeat constructor. simpl. tauto.
  - reflexivity.
Defined.

(* ===================================================================== *)
(** * Listing and searching agents, completing flags                      *)
(* ===================================================================== *)


Lemma prefix_trans (a b c : string) :
  String.prefix a b = true -> String.prefix b c = true -> String.prefix a c = true.
Proof.
  intros [p ->]%prefix_app [q ->]%prefix_app.
  apply prefix_app. exists (p +:+ q). by rewrite append_assoc.
Qed.

(** X24: every completion of [get_command_completion] is [--] followed
    by a parameter name the command declares and that starts with the text
    typed so far, in the order of the schema, and the same whether the
    command is named by its name or by an alias.  The typed text is compared
    with the bare parameter names: when it starts with a dash and no
    declared name does, nothing is proposed, so a proposed [--flag] typed
    back in completes to nothing. *)
Theorem completions_are_declared_flags (registry : CommandRegistry)
    (command_name current_arg : string) :
  (forall x,
     In x (get_command_completion registry command_name current_arg) <->
     exists r c p,
       get_command registry command_name = Some (r, c) /\
       In p (dict_keys (parameters (metadata c))) /\
       startswith current_arg p = true /\
       x = "--" +:+ p) /\
  (forall r c other,
     get_command registry command_name = Some (r, c) ->
     get_command registry other = Some (r, c) ->
     get_command_completion registry other current_arg =
     get_command_completion registry command_name current_arg) /\
  (forall r c,
     get_command registry command_name = Some (r, c) ->
     startswith "-" current_arg = true ->
     (forall p, In p (dict_keys (parameters (metadata c))) ->
                startswith "-" p = false) ->
     get_command_completion registry command_name current_arg = []).
Proof.
  unfold get_command_completion. split; [|split].
  - intros x. destruct (get_command registry command_name) as [[r c]|].
    + rewrite in_map_iff. split.
      * intros [p [<- [Hin Hp]%filter_In]]. by exists r, c, p.
      * intros (r' & c' & p & [= <- <-] & Hin & Hp & ->).
        exists p. split; [done|]. by apply filter_In.
    + split; [done|]. by intros (r & c & p & [=] & _).
  - by intros r c other -> ->.
  - intros r c -> Hd Hnone.
    assert (List.filter (startswith current_arg)
              (dict_keys (parameters (metadata c))) = []) as ->; [|done].
    induction (dict_keys (parameters (metadata c))) as [|p l IH]; [done|].
    simpl. destruct (startswith current_arg p) eqn:E.
    + pose proof (Hnone p (or_introl eq_refl)) as Hp.
      pose proof (prefix_trans "-" current_arg p Hd E) as Ht.
      unfold startswith in Hp. congruence.
    + apply IH. intros q Hq. apply Hnone. by right.
Qed.

(** [echo] declares [msg] and [n]: [m] completes to [--msg], [--m] to
    nothing. *)
Lemma completions_are_declared_flags_witness :
  let registry := register_command empty "echo" Samples.h_ok "" "general" []
                    Samples.echo_params [] [] false false "1.0.0" (0, 0) in
  get_command_completion registry "echo" "m" = ["--msg"] /\
  get_command_completion registry "echo" "--m" = [].
Proof.
  intros registry. split; [reflexivity|].
  destruct (completions_are_declared_flags registry "echo" "--m") as (_ & _ & H).
  eapply H; [reflexivity | reflexivity |].
  intros p [<-|[<-|[]]]; reflexivity.
Defined.
